(** * ProxyPool: a shallow embedding of [src/ProxyPool/__init__.py]

    The development follows the layout of the Python module: one Rocq
    [Module] per class ([ProxyData], [_ProxyDict], [_ProxyQueue],
    [ProxyPool], [Proxy]), each method a definition of the same name.

    Modelling choices.
    - Python integers are [Z].  Timestamps ([time.time()] readings and the
      [timeout] attribute) are [Z] as well: the code only adds a duration
      to a reading and compares two timestamps, and only the comparisons
      matter below.  Every method that reads the clock takes the reading
      as an argument [now].  The float sum [time.time() + time_sec] of
      [give_timeout] is the exact sum here; its rounding, and the
      [OverflowError] it raises for an integer beyond the float range,
      are outside the model, and the properties below that go through
      [give_timeout] are about durations the float sum represents.
    - A [ProxyData] object is only ever stored in the registry under its
      own [proxy_url]; a reference to such an object is modelled by that
      key, and an in-place attribute update by [alter] on the registry.
      A [ProxyData] object that the registry does not hold is a plain
      record value ([ProxyPool.return_proxy_object]).
    - Exceptions do not roll the state back in Python, so a computation
      is a function from the pool to an outcome (a value or a raised
      exception) paired with the pool as the call leaves it.
    - The development is sequential: the locks of the source are never
      contended, so [with self.alter_lock] is transparent and the gate
      at the head of [get_proxy] falls through. *)

From Stdlib Require Import ZArith Lia.
From stdpp Require Import gmap strings list sorting.

Open Scope string_scope.
Open Scope list_scope.
Open Scope Z_scope.

(** ** Exceptions *)

(** Modelled from the spec: the [ProxyExceptions] module is imported by
    the source but is not part of it.  Its three classes are taken as
    distinct exception types, none of them derived from the built-in
    [IndexError], each carrying what the raising site passes
    ([ProxiesTimeout] is the spec's [ProxiesInCooldown]).  The built-in
    exceptions that the container operations raise are listed next to
    them; [OtherError] stands for anything else the replenishment
    callback may raise. *)
Inductive exn : Type :=
| UnknownProxy (item : string)
| ProxiesTimeout (available_at : Z)
| NoValidProxies
| KeyError (key : string)
| ValueError
| IndexError
| OtherError (tag : string).

#[global] Instance exn_eq_dec : EqDecision exn.
Proof. solve_decision. Defined.

Inductive outcome (A : Type) : Type :=
| Return (a : A)
| Raise (e : exn).
Arguments Return {A} a.
Arguments Raise {A} e.

(** ** State-and-exception monad *)

Module Run.
Section Monad.
Context {S : Type}.

Definition M (A : Type) : Type := S -> outcome A * S.

Definition ret {A} (a : A) : M A := fun s => (Return a, s).
Definition raise {A} (e : exn) : M A := fun s => (Raise e, s).

Definition bind {A B} (m : M A) (k : A -> M B) : M B :=
fun s => match m s with
         | (Return a, s') => k a s'
         | (Raise e, s') => (Raise e, s')
         end.

Definition get : M S := fun s => (Return s, s).
Definition modify (f : S -> S) : M unit := fun s => (Return tt, f s).

(** [try: m except e: h] for a single exception class without payload. *)
Definition try_except {A} (m : M A) (caught : exn) (h : M A) : M A :=
fun s => match m s with
         | (Raise e, s') => if decide (e = caught) then h s' else (Raise e, s')
         | r => r
         end.
End Monad.
Arguments M : clear implicits.
End Run.
Import Run.

Notation "x <- m ;; k" := (bind m (fun x => k))
  (at level 100, m at next level, right associativity).
Notation "m ;;; k" := (bind m (fun _ => k))
  (at level 100, right associativity).

(** ** class ProxyData *)

Module ProxyData.
Record t : Type := mk {
  proxy_url : string;
  timeout : Z;
  banned : bool;
  given_out_counter : Z;
  timed_out_counter : Z;
  used_counter : Z
}.

Definition __init__ (proxy_url : string) : t :=
  {| proxy_url := proxy_url; timeout := 0; banned := false;
     given_out_counter := 0; timed_out_counter := 0; used_counter := 0 |}.

Definition set_timeout (v : Z) (p : t) : t :=
  mk (proxy_url p) v (banned p) (given_out_counter p) (timed_out_counter p) (used_counter p).
Definition set_banned (v : bool) (p : t) : t :=
  mk (proxy_url p) (timeout p) v (given_out_counter p) (timed_out_counter p) (used_counter p).
Definition set_given_out_counter (v : Z) (p : t) : t :=
  mk (proxy_url p) (timeout p) (banned p) v (timed_out_counter p) (used_counter p).
Definition set_timed_out_counter (v : Z) (p : t) : t :=
  mk (proxy_url p) (timeout p) (banned p) (given_out_counter p) v (used_counter p).
Definition set_used_counter (v : Z) (p : t) : t :=
  mk (proxy_url p) (timeout p) (banned p) (given_out_counter p) (timed_out_counter p) v.

Definition give_timeout (now time_sec : Z) (p : t) : t :=
  let p := set_timeout (now + time_sec) p in
  set_timed_out_counter (timed_out_counter p + 1) p.

Definition use (now use_timeout : Z) (p : t) : t :=
  let p := set_used_counter (used_counter p + 1) p in
  if bool_decide (use_timeout > 0) then give_timeout now use_timeout p else p.

Definition ban (p : t) : t := set_banned true p.
Definition unban (p : t) : t := set_banned false p.

Definition is_valid (now : Z) (ignore_timeout : bool) (p : t) : bool :=
  negb (banned p) && (ignore_timeout || bool_decide (timeout p < now)).

Definition is_timeout (now : Z) (p : t) : bool :=
  bool_decide (timeout p > now).
End ProxyData.

#[global] Instance ProxyData_eq_dec : EqDecision ProxyData.t.
Proof. solve_decision. Defined.

(** ** The pool object

    The attributes of a [ProxyPool] instance.  [replenish_calls] is a
    ghost field: it counts the invocations of the replenishment callback
    and is written by [replenish_proxies] only.  The callback itself,
    [replenish_proxies_func], is a parameter of the methods that use it
    (a record cannot hold a function over itself). *)
Record pool : Type := mkPool {
  max_time_outs : Z;
  max_uses : Z;
  time_out_on_use : Z;
  _proxy_dict : gmap string ProxyData.t;
  _proxy_queue : list string;
  replenish_calls : nat
}.

Definition set_proxy_dict (f : gmap string ProxyData.t -> gmap string ProxyData.t) (s : pool) : pool :=
  mkPool (max_time_outs s) (max_uses s) (time_out_on_use s)
         (f (_proxy_dict s)) (_proxy_queue s) (replenish_calls s).
Definition set_proxy_queue (f : list string -> list string) (s : pool) : pool :=
  mkPool (max_time_outs s) (max_uses s) (time_out_on_use s)
         (_proxy_dict s) (f (_proxy_queue s)) (replenish_calls s).
Definition set_replenish_calls (n : nat) (s : pool) : pool :=
  mkPool (max_time_outs s) (max_uses s) (time_out_on_use s)
         (_proxy_dict s) (_proxy_queue s) n.

(** The replenishment callback: an external function that receives the
    pool and may change it or raise.  Its first argument is the number of
    earlier invocations, so that successive calls may behave differently. *)
Definition callback : Type := nat -> pool -> outcome unit * pool.

(** ** class _ProxyDict(dict) *)

Module _ProxyDict.
(** [self._proxy_dict[item]]: the overridden [__getitem__]. *)
Definition __getitem__ (item : string) : M pool ProxyData.t :=
  s <- get ;;
  match _proxy_dict s !! item with
  | Some p => ret p
  | None => raise (UnknownProxy item)
  end.

(** [self._proxy_dict[key] = value]. *)
Definition __setitem__ (key : string) (value : ProxyData.t) : M pool unit :=
  modify (set_proxy_dict (insert key value)).

(** [self._proxy_dict.pop(key)]: [dict.pop] is inherited unchanged; it
    does not go through [__getitem__] and raises the built-in
    [KeyError] for a missing key. *)
Definition pop (key : string) : M pool ProxyData.t :=
  s <- get ;;
  match _proxy_dict s !! key with
  | Some p => modify (set_proxy_dict (delete key)) ;;; ret p
  | None => raise (KeyError key)
  end.

(** In-place update of an attribute of the object stored under [key]. *)
Definition update (key : string) (f : ProxyData.t -> ProxyData.t) : M pool unit :=
  modify (set_proxy_dict (alter f key)).
End _ProxyDict.

(** ** class _ProxyQueue(deque) *)

Module _ProxyQueue.
(** [deque.remove(item)]: drops the first occurrence; [None] stands for
    the [ValueError] raised when there is none. *)
Fixpoint deque_remove (item : string) (q : list string) : option (list string) :=
  match q with
  | [] => None
  | a :: q' =>
      if decide (a = item) then Some q'
      else cons a <$> deque_remove item q'
  end.

(** [deque.insert(i, x)]. *)
Definition deque_insert (i : nat) (x : string) (q : list string) : list string :=
  take i q ++ x :: drop i q.

Definition peek : M pool string :=
  s <- get ;;
  match _proxy_queue s with
  | a :: _ => ret a
  | [] => raise IndexError
  end.

(** [deque.pop()], on the right end. *)
Definition pop : M pool string :=
  s <- get ;;
  match last (_proxy_queue s) with
  | Some a => modify (set_proxy_queue (fun q => removelast q)) ;;; ret a
  | None => raise IndexError
  end.

Definition popleft : M pool string :=
  s <- get ;;
  match _proxy_queue s with
  | a :: q' => modify (set_proxy_queue (fun _ => q')) ;;; ret a
  | [] => raise IndexError
  end.

Definition remove (item : string) : M pool unit :=
  s <- get ;;
  match deque_remove item (_proxy_queue s) with
  | Some q' => modify (set_proxy_queue (fun _ => q'))
  | None => raise ValueError
  end.

(** The [for i, a in enumerate(self)] loop of [put], run over the part
    of the queue not yet visited, [i] being the index of its head.
    [Return (Some i)] is the index at which the loop breaks,
    [Return None] the loop running to its [else] branch; the lookup
    [self.ProxyPoolLink[a]] raises for an unregistered entry. *)
Fixpoint put_scan (d : gmap string ProxyData.t) (proxy : ProxyData.t)
         (i : nat) (rest : list string) : outcome (option nat) :=
  match rest with
  | [] => Return None
  | a :: rest' =>
      match d !! a with
      | None => Raise (UnknownProxy a)
      | Some pa =>
          if bool_decide (ProxyData.timeout proxy <= ProxyData.timeout pa)
          then Return (Some i)
          else put_scan d proxy (S i) rest'
      end
  end.

Definition put (proxy : ProxyData.t) : M pool unit :=
  (* try: super().remove(proxy.proxy_url)  except ValueError: pass *)
  modify (set_proxy_queue (fun q =>
    default q (deque_remove (ProxyData.proxy_url proxy) q))) ;;;
  s <- get ;;
  match put_scan (_proxy_dict s) proxy 0%nat (_proxy_queue s) with
  | Raise e => raise e
  | Return (Some O) =>
      modify (set_proxy_queue (cons (ProxyData.proxy_url proxy)))
  | Return (Some i) =>
      modify (set_proxy_queue (deque_insert i (ProxyData.proxy_url proxy)))
  | Return None =>
      modify (set_proxy_queue (fun q => q ++ [ProxyData.proxy_url proxy]))
  end.
End _ProxyQueue.

(** ** class ProxyPool *)

Module ProxyPool.
(** The dict comprehension keeps one entry per distinct identifier;
    the deque is built from the list as given. *)
Definition __init__ (proxy_list : list string)
           (max_time_outs max_uses time_out_on_use : Z) : pool :=
  {| max_time_outs := max_time_outs;
     max_uses := max_uses;
     time_out_on_use := time_out_on_use;
     _proxy_dict :=
       foldl (fun d a => <[a := ProxyData.__init__ a]> d) ∅ proxy_list;
     _proxy_queue := proxy_list;
     replenish_calls := 0 |}.

Definition __contains__ (item : string) : M pool bool :=
  s <- get ;; ret (bool_decide (is_Some (_proxy_dict s !! item))).

Definition __getitem__ (item : string) : M pool ProxyData.t :=
  _ProxyDict.__getitem__ item.

Definition add_proxy (proxy : string) : M pool unit :=
  _ProxyDict.__setitem__ proxy (ProxyData.__init__ proxy) ;;;
  p <- _ProxyDict.__getitem__ proxy ;;
  _ProxyQueue.put p.

Fixpoint add_proxies (proxy_list : list string) : M pool unit :=
  match proxy_list with
  | [] => ret tt
  | a :: l => add_proxy a ;;; add_proxies l
  end.

Definition remove_proxy (proxy : string) : M pool unit :=
  _ProxyDict.pop proxy ;;;
  _ProxyQueue.remove proxy.

Fixpoint remove_proxies (proxy_list : list string) : M pool unit :=
  match proxy_list with
  | [] => ret tt
  | a :: l => remove_proxy a ;;; remove_proxies l
  end.

(** [proxy_valid_to_give] on a [ProxyData] object (the [isinstance]
    branch); [and]/[or] short-circuit, the clock being read only when
    [ignore_timeout] is false. *)
Definition proxy_valid_to_give (s : pool) (now : Z)
           (proxy : ProxyData.t) (ignore_timeout : bool) : bool :=
  (bool_decide (max_time_outs s <= 0)
   || bool_decide (ProxyData.timed_out_counter proxy < max_time_outs s))
  && (bool_decide (max_uses s <= 0)
      || bool_decide (ProxyData.used_counter proxy < max_uses s))
  && ProxyData.is_valid now ignore_timeout proxy.

Definition proxy_valid_to_use (s : pool) (now : Z) (proxy : ProxyData.t) : bool :=
  (bool_decide (max_uses s <= 0)
   || bool_decide (ProxyData.used_counter proxy < max_uses s))
  && (bool_decide (max_time_outs s <= 0)
      || bool_decide (ProxyData.timed_out_counter proxy < max_time_outs s))
  && ProxyData.is_valid now false proxy.

(** The same two checks called with an identifier, which is resolved
    through the registry first. *)
Definition proxy_valid_to_give_str (now : Z) (proxy : string)
           (ignore_timeout : bool) : M pool bool :=
  p <- _ProxyDict.__getitem__ proxy ;;
  s <- get ;;
  ret (proxy_valid_to_give s now p ignore_timeout).

Definition proxy_valid_to_use_str (now : Z) (proxy : string) : M pool bool :=
  p <- _ProxyDict.__getitem__ proxy ;;
  s <- get ;;
  ret (proxy_valid_to_use s now p).

Definition available_proxy_count (now : Z) : M pool Z :=
  s <- get ;;
  ret (Z.of_nat (size (filter
         (fun kv => proxy_valid_to_give s now (snd kv) false = true)
         (_proxy_dict s)))).

Definition __len__ (now : Z) : M pool Z := available_proxy_count now.

(** [return_proxy] called with an identifier.  The validity check runs
    with [ignore_timeout=True], so the clock is not read and its
    argument is immaterial. *)
Definition return_proxy (proxy : string) : M pool unit :=
  _ProxyDict.__getitem__ proxy ;;;
  _ProxyDict.update proxy (fun p =>
    ProxyData.set_given_out_counter (ProxyData.given_out_counter p - 1) p) ;;;
  p <- _ProxyDict.__getitem__ proxy ;;
  s <- get ;;
  if proxy_valid_to_give s 0 p true
  then _ProxyQueue.put p
  else ret tt.

(** [return_proxy] called with a [ProxyData] object that the registry
    does not hold (a state built by the caller, or one obtained from the
    pool and since removed or replaced): the [isinstance] test skips the
    lookup, the decrement lands on that object, which is returned here
    next to the pool, and [put] queues its [proxy_url] whether or not it
    is registered.  Called with the object that the registry holds under
    its [proxy_url], the method does what [return_proxy] does with that
    identifier. *)
Definition return_proxy_object (proxy : ProxyData.t) : M pool ProxyData.t :=
  let proxy := ProxyData.set_given_out_counter
                 (ProxyData.given_out_counter proxy - 1) proxy in
  s <- get ;;
  (if proxy_valid_to_give s 0 proxy true
   then _ProxyQueue.put proxy
   else ret tt) ;;;
  ret proxy.

(** The callback runs once; whether it returns or raises, the lock is
    released and the exception, if any, is re-raised. *)
Definition replenish_proxies (replenish_proxies_func : callback) : M pool unit :=
  fun s =>
    let '(r, s') := replenish_proxies_func (replenish_calls s) s in
    (r, set_replenish_calls (S (replenish_calls s)) s').

Section GetProxy.
Variable replenish_proxies_func : option callback.

(** The body of the [try] block; [now] is the clock reading of
    [is_timeout]. *)
Definition get_proxy_try (prev_proxy : option string) (now : Z) : M pool string :=
  proxy_str <- _ProxyQueue.popleft ;;
  prox_data <- _ProxyDict.__getitem__ proxy_str ;;
  if ProxyData.is_timeout now prox_data then
    _ProxyQueue.put prox_data ;;;
    raise (ProxiesTimeout (ProxyData.timeout prox_data))
  else
    match prev_proxy with
    | Some prev => return_proxy prev
    | None => ret tt
    end ;;;
    _ProxyDict.update proxy_str (fun p =>
      ProxyData.set_given_out_counter (ProxyData.given_out_counter p + 1) p) ;;;
    ret proxy_str.

(** [get_proxy] with its recursive call abstracted as [self]. *)
Definition get_proxy_body (self : option string -> M pool string)
           (prev_proxy : option string) (_replenish : bool) (now : Z)
  : M pool string :=
  try_except (get_proxy_try prev_proxy now) IndexError
    match replenish_proxies_func, _replenish with
    | Some f, true => replenish_proxies f ;;; self prev_proxy
    | _, _ => raise NoValidProxies
    end.

(** The recursive call passes [_replenish=False], and a call with
    [_replenish=False] never recurses: the recursion is two deep at
    most and is unfolded here.  [now] is the clock reading of the
    first attempt, [now'] that of the retry. *)
Definition get_proxy_retry (prev_proxy : option string) (now' : Z) : M pool string :=
  get_proxy_body (fun _ => raise NoValidProxies) prev_proxy false now'.

Definition get_proxy (prev_proxy : option string) (_replenish : bool)
           (now now' : Z) : M pool string :=
  get_proxy_body (fun prev => get_proxy_retry prev now') prev_proxy _replenish now.
End GetProxy.

Definition use_proxy (now : Z) (proxy : string) : M pool unit :=
  _ProxyDict.__getitem__ proxy ;;;
  s <- get ;;
  _ProxyDict.update proxy (ProxyData.use now (time_out_on_use s)).

Definition timeout_proxy (now : Z) (proxy : string) (time_sec : Z) : M pool unit :=
  _ProxyDict.__getitem__ proxy ;;;
  _ProxyDict.update proxy (ProxyData.give_timeout now time_sec).

Definition ban_proxy (proxy : string) : M pool unit :=
  _ProxyDict.__getitem__ proxy ;;;
  _ProxyDict.update proxy ProxyData.ban.

Definition unban_proxy (proxy : string) : M pool unit :=
  _ProxyDict.__getitem__ proxy ;;;
  _ProxyDict.update proxy ProxyData.unban.
End ProxyPool.

(** ** class Proxy: the handle *)

Module Proxy.
Record t : Type := mk { assigned_proxy : string }.

(** [Proxy(pool, proxy)]: a handle built for a given identifier takes
    it as it is, without going through [get_proxy]. *)
Definition __init__ (f : option callback) (proxy : option string)
           (now now' : Z) : M pool t :=
  match proxy with
  | None => p <- ProxyPool.get_proxy f None true now now' ;; ret (mk p)
  | Some p => ret (mk p)
  end.

Definition _is_valid (now : Z) (self : t) : M pool bool :=
  ProxyPool.proxy_valid_to_use_str now (assigned_proxy self).

(** [use] returns the identifier together with the updated handle;
    the clock is read by [_is_valid], by each attempt of [get_proxy]
    and by [use_proxy]. *)
Definition use (f : option callback) (now_valid now now' now_use : Z) (self : t)
  : M pool (string * t) :=
  valid <- _is_valid now_valid self ;;
  self' <- (if valid : bool then ret self
            else p <- ProxyPool.get_proxy f (Some (assigned_proxy self)) true now now' ;;
                 ret (mk p)) ;;
  ProxyPool.use_proxy now_use (assigned_proxy self') ;;;
  ret (assigned_proxy self', self').

Definition timeout (now : Z) (time_sec : Z) (self : t) : M pool unit :=
  ProxyPool.timeout_proxy now (assigned_proxy self) time_sec.

Definition ban (self : t) : M pool unit :=
  ProxyPool.ban_proxy (assigned_proxy self).

(** [assigned_proxy] is a string once [__init__] has returned, so the
    [is not None] test of the source holds. *)
Definition __del__ (self : t) : M pool unit :=
  ProxyPool.return_proxy (assigned_proxy self).
End Proxy.

(** [ProxyPool.Proxy]: the factory method of the pool. *)
Definition ProxyPool_Proxy (f : option callback) (proxy : option string)
           (now now' : Z) : M pool Proxy.t :=
  match proxy with
  | Some p =>
      known <- ProxyPool.__contains__ p ;;
      if known : bool then ret tt else ProxyPool.add_proxy p
  | None => ret tt
  end ;;;
  Proxy.__init__ f proxy now now'.

(** * The availability queue as the specification words it *)

(** The [put] of the specification (section 4.2), on the bare sequence of
    identifiers: [timeout_until a] is the expiry recorded for the queued
    identifier [a], [t] the expiry of the endpoint being put. *)
Module Spec.
(** "removes [id] if already present" *)
Fixpoint remove (id : string) (q : list string) : list string :=
  match q with
  | [] => []
  | a :: q' => if decide (a = id) then q' else a :: remove id q'
  end.

(** "scanning from the front and inserting before the first entry whose
    [timeout_until] is >= the new entry's; appends at the end if none
    qualify" *)
Fixpoint insert (timeout_until : string -> Z) (t : Z) (id : string)
         (q : list string) : list string :=
  match q with
  | [] => [id]
  | a :: q' =>
      if bool_decide (t <= timeout_until a) then id :: a :: q'
      else a :: insert timeout_until t id q'
  end.

Definition put (timeout_until : string -> Z) (t : Z) (id : string)
           (q : list string) : list string :=
  insert timeout_until t id (remove id q).

(** Section 4.5: eligible with cooldown ignored: not banned, not over
    the use-count ceiling, not over the timeout-count ceiling, a
    ceiling of 0 (or less) meaning none. *)
Definition eligible (s : pool) (p : ProxyData.t) : Prop :=
  ProxyData.banned p = false
  /\ (0 < max_uses s -> ProxyData.used_counter p < max_uses s)
  /\ (0 < max_time_outs s -> ProxyData.timed_out_counter p < max_time_outs s).
End Spec.

(** The expiry the registry [d] records for [a]. *)
Definition timeout_until (d : gmap string ProxyData.t) (a : string) : Z :=
  from_option ProxyData.timeout 0 (d !! a).

(** Every queued identifier is a key of the registry. *)
Definition queue_registered (d : gmap string ProxyData.t) (q : list string) : Prop :=
  Forall (fun a => is_Some (d !! a)) q.

#[global] Instance queue_registered_dec d q : Decision (queue_registered d q).
Proof. unfold queue_registered. apply _. Defined.

#[global] Instance eligible_dec s p : Decision (Spec.eligible s p).
Proof. unfold Spec.eligible. apply _. Defined.

(** * Concrete pools used in the examples below *)

(** [ProxyPool(["a", "b"])]. *)
Definition pool_ab : pool := ProxyPool.__init__ ["a"; "b"] 0 0 0.

(** [ProxyPool(["a", "a"])]: the registry holds one entry, the queue two. *)
Definition pool_aa : pool := ProxyPool.__init__ ["a"; "a"] 0 0 0.

(** [ProxyPool(["a", "b"])] after [timeout_proxy("a", 5)] at time 10. *)
Definition pool_a_cooling : pool :=
  snd (ProxyPool.timeout_proxy 10 "a" 5 pool_ab).

(** [ProxyPool(["a", "b"], max_uses=1)] after [get_proxy()] has handed
    out "a", then [ban_proxy("a")] and [use_proxy("a")]: "a" is checked
    out, banned and used up, and only "b" is queued. *)
Definition pool_a_spent : pool :=
  snd ((ProxyPool.get_proxy None None true 1 1 ;;;
        ProxyPool.ban_proxy "a" ;;;
        ProxyPool.use_proxy 1 "a")
         (ProxyPool.__init__ ["a"; "b"] 0 1 0)).

(** [ProxyPool([])]. *)
Definition pool_empty : pool := ProxyPool.__init__ [] 0 0 0.

(** A replenishment callback that calls [add_proxies(["c"])]. *)
Definition replenish_c : callback :=
  fun _ s => ProxyPool.add_proxies ["c"] s.

(** * Well-formed pools and the public operations

    A pool is well formed when every registered [ProxyData] sits under
    its own [proxy_url], every queued identifier is registered, and no
    identifier is queued twice. *)
Record wf (s : pool) : Prop := mk_wf {
  wf_keys : map_Forall (fun k p => ProxyData.proxy_url p = k) (_proxy_dict s);
  wf_registered : queue_registered (_proxy_dict s) (_proxy_queue s);
  wf_nodup : NoDup (_proxy_queue s)
}.

(** The public operations of the pool; those that read the clock carry
    the readings. *)
Inductive op : Type :=
| Add_proxy (proxy : string)
| Remove_proxy (proxy : string)
| Return_proxy (proxy : string)
| Get_proxy (prev_proxy : option string) (now now' : Z)
| Use_proxy (now : Z) (proxy : string)
| Timeout_proxy (now : Z) (proxy : string) (time_sec : Z)
| Ban_proxy (proxy : string)
| Unban_proxy (proxy : string).

(** The pool after one operation, whether it returned or raised. *)
Definition step (f : option callback) (o : op) (s : pool) : pool :=
  match o with
  | Add_proxy proxy => snd (ProxyPool.add_proxy proxy s)
  | Remove_proxy proxy => snd (ProxyPool.remove_proxy proxy s)
  | Return_proxy proxy => snd (ProxyPool.return_proxy proxy s)
  | Get_proxy prev_proxy now now' =>
      snd (ProxyPool.get_proxy f prev_proxy true now now' s)
  | Use_proxy now proxy => snd (ProxyPool.use_proxy now proxy s)
  | Timeout_proxy now proxy time_sec =>
      snd (ProxyPool.timeout_proxy now proxy time_sec s)
  | Ban_proxy proxy => snd (ProxyPool.ban_proxy proxy s)
  | Unban_proxy proxy => snd (ProxyPool.unban_proxy proxy s)
  end.

(** The pools reached from a pool built on a list without repetition. *)
Inductive reachable (f : option callback) : pool -> Prop :=
| reachable_init proxy_list max_time_outs max_uses time_out_on_use :
    NoDup proxy_list ->
    reachable f (ProxyPool.__init__ proxy_list max_time_outs max_uses time_out_on_use)
| reachable_step o s :
    reachable f s -> reachable f (step f o s).

(** * What the steps of [get_proxy] cannot do

    A computation is [quiet] when it leaves the callback counter alone
    and never raises [IndexError].  Everything [get_proxy] runs after a
    successful [popleft] is quiet. *)

Definition quiet {A} (m : M pool A) : Prop :=
  forall s, replenish_calls (snd (m s)) = replenish_calls s
            /\ fst (m s) <> Raise IndexError.

Create HintDb quiet.

(** The exceptions that a registry lookup or the cooldown check raise. *)
Definition lookup_or_cooldown (e : exn) : Prop :=
  match e with
  | UnknownProxy _ | ProxiesTimeout _ => True
  | _ => False
  end.

(** The queue is in ascending order of the expiry the registry records. *)
Definition queue_sorted (d : gmap string ProxyData.t) (q : list string) : Prop :=
  StronglySorted (fun a b => timeout_until d a <= timeout_until d b) q.

(** [ProxyPool(["a", "b"])] after [get_proxy()] has handed out "a" and
    [timeout_proxy("a", 5)] at time 10: "a" is registered with expiry 15
    and only "b" is queued. *)
Definition pool_a_late : pool :=
  snd ((ProxyPool.get_proxy None None true 1 2 ;;;
        ProxyPool.timeout_proxy 10 "a" 5) pool_ab).

(** [ProxyPool(["a", "b"])] after both endpoints were handed out, timed
    out ("a" until 15, "b" until 8) and returned: the queue is "b", "a". *)
Definition pool_all_cooling : pool :=
  snd ((ProxyPool.get_proxy None None true 1 2 ;;;
        ProxyPool.get_proxy None None true 1 2 ;;;
        ProxyPool.timeout_proxy 10 "a" 5 ;;;
        ProxyPool.timeout_proxy 3 "b" 5 ;;;
        ProxyPool.return_proxy "a" ;;;
        ProxyPool.return_proxy "b") pool_ab).

(** [ProxyPool(["a", "b"], max_uses=1)]. *)
Definition pool_one_use : pool := ProxyPool.__init__ ["a"; "b"] 0 1 0.

(** [ProxyPool(["b", "a", "a"])] after [remove_proxy("a")]: the registry
    holds "b" only, while one "a" is still queued behind "b". *)
Definition pool_stale : pool :=
  snd (ProxyPool.remove_proxy "a" (ProxyPool.__init__ ["b"; "a"; "a"] 0 0 0)).

(** * Lemmas on the queue operations *)

Section QueueLemmas.
Implicit Types (q : list string) (d : gmap string ProxyData.t).

Lemma deque_remove_spec id q :
  default q (_ProxyQueue.deque_remove id q) = Spec.remove id q.
Proof.
  induction q as [|a q IH]; simpl; [done|].
  destruct (decide (a = id)); [done|].
  destruct (_ProxyQueue.deque_remove id q); simpl in *; by rewrite <- IH.
Qed.

Lemma deque_remove_absent id q :
  id ∉ q -> _ProxyQueue.deque_remove id q = None.
Proof.
  induction q as [|a q IH]; simpl; [done|].
  intros Hn. apply not_elem_of_cons in Hn as [Hne Hn].
  destruct (decide (a = id)); [congruence|]. by rewrite IH.
Qed.

Lemma deque_remove_present id q :
  id ∈ q -> is_Some (_ProxyQueue.deque_remove id q).
Proof.
  induction q as [|a q IH]; simpl; [by intros ?%elem_of_nil|].
  intros Hin. destruct (decide (a = id)); [by eexists|].
  apply elem_of_cons in Hin as [->|Hin]; [done|].
  destruct (IH Hin) as [q' ->]. by eexists.
Qed.

Lemma spec_remove_sublist id q : Spec.remove id q `sublist_of` q.
Proof.
  induction q as [|a q IH]; simpl; [done|].
  destruct (decide (a = id)); [by apply sublist_cons|by apply sublist_skip].
Qed.

Lemma spec_remove_absent id q : id ∉ q -> Spec.remove id q = q.
Proof.
  induction q as [|a q IH]; simpl; [done|].
  intros Hn. apply not_elem_of_cons in Hn as [Hne Hn].
  destruct (decide (a = id)); [congruence|]. by rewrite IH.
Qed.

Lemma spec_remove_elem_of id q x :
  x ∈ Spec.remove id q -> x ∈ q.
Proof. intros Hx. eapply elem_of_sublist; [done|apply spec_remove_sublist]. Qed.

Lemma spec_remove_elem_of_ne id q x :
  x ≠ id -> x ∈ q -> x ∈ Spec.remove id q.
Proof.
  intros Hne. induction q as [|a q IH]; simpl; [done|].
  intros Hin. apply elem_of_cons in Hin as [->|Hin].
  - destruct (decide (a = id)); [done|]. apply elem_of_cons; by left.
  - destruct (decide (a = id)); [done|]. apply elem_of_cons; right; auto.
Qed.

Lemma spec_remove_NoDup id q : NoDup q -> NoDup (Spec.remove id q).
Proof. intros. eapply sublist_NoDup; [done|apply spec_remove_sublist]. Qed.

Lemma spec_remove_NoDup_absent id q : NoDup q -> id ∉ Spec.remove id q.
Proof.
  induction 1 as [|a q Ha Hq IH]; simpl; [by intros ?%elem_of_nil|].
  destruct (decide (a = id)) as [->|Hne]; [done|].
  intros [?|?]%elem_of_cons; [congruence|done].
Qed.

Lemma spec_insert_Permutation tu t id q :
  Spec.insert tu t id q ≡ₚ id :: q.
Proof.
  induction q as [|a q IH]; simpl; [done|].
  case_bool_decide; [done|]. rewrite IH. apply Permutation_swap.
Qed.

Lemma spec_insert_elem_of tu t id q x :
  x ∈ Spec.insert tu t id q <-> x = id \/ x ∈ q.
Proof. rewrite spec_insert_Permutation. apply elem_of_cons. Qed.

Lemma spec_put_elem_of tu t id q x :
  x ∈ Spec.put tu t id q <-> x = id \/ x ∈ q.
Proof.
  unfold Spec.put. rewrite spec_insert_elem_of. split.
  - intros [?|?]; [by left|right; by eapply spec_remove_elem_of].
  - intros [?|?]; [by left|].
    destruct (decide (x = id)); [by left|right; by apply spec_remove_elem_of_ne].
Qed.

Lemma spec_put_NoDup tu t id q : NoDup q -> NoDup (Spec.put tu t id q).
Proof.
  intros Hq. unfold Spec.put. rewrite spec_insert_Permutation.
  apply NoDup_cons. split; [by apply spec_remove_NoDup_absent|by apply spec_remove_NoDup].
Qed.

(** Where the entry lands: all that precede it expire strictly
    earlier, and the one that follows it, if any, does not. *)
Lemma spec_insert_position tu t id q :
  exists front back,
    q = front ++ back
    /\ Spec.insert tu t id q = front ++ id :: back
    /\ Forall (fun a => tu a < t) front
    /\ match back with [] => True | b :: _ => t <= tu b end.
Proof.
  induction q as [|a q (front & back & -> & Hins & Hfront & Hback)]; simpl.
  - by exists [], [].
  - case_bool_decide as Hle.
    + by exists [], (a :: front ++ back).
    + exists (a :: front), back. rewrite Hins. repeat split; [|done].
      apply Forall_cons; split; [lia|done].
Qed.

Lemma queue_registered_remove d id q :
  queue_registered d q -> queue_registered d (Spec.remove id q).
Proof.
  unfold queue_registered. rewrite !Forall_forall.
  intros H x Hx. eapply H, spec_remove_elem_of, Hx.
Qed.
End QueueLemmas.

(** * [_ProxyQueue.put] against the specification's [put] *)

Section PutLemmas.
Implicit Types (q : list string) (d : gmap string ProxyData.t) (s : pool).

Lemma timeout_until_lookup d a pa :
  d !! a = Some pa -> timeout_until d a = ProxyData.timeout pa.
Proof. unfold timeout_until. by intros ->. Qed.

(** The loop of [put] finds the position the specification names. *)
Lemma put_scan_insert d proxy q : forall i,
  queue_registered d q ->
  exists r,
    _ProxyQueue.put_scan d proxy i q = Return r
    /\ match r with
       | Some j =>
           (i <= j)%nat
           /\ _ProxyQueue.deque_insert (j - i) (ProxyData.proxy_url proxy) q
              = Spec.insert (timeout_until d) (ProxyData.timeout proxy)
                            (ProxyData.proxy_url proxy) q
       | None =>
           q ++ [ProxyData.proxy_url proxy]
           = Spec.insert (timeout_until d) (ProxyData.timeout proxy)
                         (ProxyData.proxy_url proxy) q
       end.
Proof.
  induction q as [|a q IH]; intros i Hreg; simpl.
  - by exists None.
  - apply Forall_cons in Hreg as [[pa Hpa] Hreg].
    rewrite Hpa, (timeout_until_lookup _ _ _ Hpa).
    case_bool_decide as Hle.
    + exists (Some i). split; [done|]. split; [lia|].
      by rewrite Nat.sub_diag.
    + destruct (IH (S i) Hreg) as (r & -> & Hr). exists r. split; [done|].
      destruct r as [j|].
      * destruct Hr as [Hij Hr]. split; [lia|].
        replace (j - i)%nat with (S (j - S i)) by lia.
        unfold _ProxyQueue.deque_insert in *. simpl. by rewrite Hr.
      * simpl. by rewrite Hr.
Qed.

Lemma put_ok proxy s :
  queue_registered (_proxy_dict s) (_proxy_queue s) ->
  _ProxyQueue.put proxy s
  = (Return tt,
     set_proxy_queue
       (Spec.put (timeout_until (_proxy_dict s)) (ProxyData.timeout proxy)
                 (ProxyData.proxy_url proxy)) s).
Proof.
  intros Hreg. unfold _ProxyQueue.put, bind, modify, get. simpl.
  rewrite deque_remove_spec.
  destruct (put_scan_insert (_proxy_dict s) proxy
              (Spec.remove (ProxyData.proxy_url proxy) (_proxy_queue s)) 0%nat)
    as (r & -> & Hr); [by apply queue_registered_remove|].
  unfold Spec.put, set_proxy_queue, raise. simpl.
  destruct r as [[|j]|]; simpl; repeat f_equal.
  - destruct Hr as [_ <-]. by rewrite deque_remove_spec.
  - destruct Hr as [_ <-]. by rewrite deque_remove_spec.
  - by rewrite deque_remove_spec.
Qed.

(** A lookup that fails during the scan surfaces as [UnknownProxy]. *)
Lemma put_scan_unregistered d proxy i a q :
  d !! a = None ->
  _ProxyQueue.put_scan d proxy i (a :: q) = Raise (UnknownProxy a).
Proof. simpl. by intros ->. Qed.
End PutLemmas.

(** * Lemmas on the registry and on single steps of the pool *)

Section PoolLemmas.
Implicit Types (q : list string) (d : gmap string ProxyData.t) (s : pool).

Lemma alter_lookup_insert d i (f : ProxyData.t -> ProxyData.t) x :
  d !! i = Some x -> alter f i d = <[i := f x]> d.
Proof.
  intros Hx. apply map_eq. intros j. rewrite lookup_alter, lookup_insert.
  case_decide; [subst; by rewrite Hx|done].
Qed.


Lemma spec_insert_ext tu tu' t id q :
  (forall a, tu a = tu' a) -> Spec.insert tu t id q = Spec.insert tu' t id q.
Proof.
  intros Heq. induction q as [|a q IH]; simpl; [done|].
  by rewrite Heq, IH.
Qed.

Lemma spec_put_ext tu tu' t id q :
  (forall a, tu a = tu' a) -> Spec.put tu t id q = Spec.put tu' t id q.
Proof. intros. unfold Spec.put. by apply spec_insert_ext. Qed.

Lemma queue_registered_alter d i (f : ProxyData.t -> ProxyData.t) q :
  queue_registered d q -> queue_registered (alter f i d) q.
Proof.
  unfold queue_registered. intros H. eapply Forall_impl; [exact H|].
  intros a Ha. apply lookup_alter_is_Some, Ha.
Qed.

Lemma queue_registered_insert d i x q :
  queue_registered d q -> queue_registered (<[i := x]> d) q.
Proof.
  unfold queue_registered. intros H. eapply Forall_impl; [exact H|].
  intros a Ha. simpl. rewrite lookup_insert. case_decide; [by eexists|done].
Qed.

(** The code's validity check with the cooldown ignored is the
    specification's eligibility. *)
Lemma proxy_valid_to_give_eligible s now p :
  ProxyPool.proxy_valid_to_give s now p true = true <-> Spec.eligible s p.
Proof.
  unfold ProxyPool.proxy_valid_to_give, ProxyData.is_valid, Spec.eligible.
  rewrite !andb_true_iff, !orb_true_iff, !bool_decide_eq_true, negb_true_iff.
  split.
  - intros [[Ht Hu] [Hb _]]. repeat split; [done|lia|lia].
  - intros (Hb & Hu & Ht). repeat split; try done.
    + destruct (decide (max_time_outs s <= 0)); [by left|right; lia].
    + destruct (decide (max_uses s <= 0)); [by left|right; lia].
    + by left.
Qed.

End PoolLemmas.

(** * Step lemmas: how each primitive runs on a given pool *)

Section Steps.
Implicit Types (s : pool).

Lemma run_bind_return {A B} (m : M pool A) (k : A -> M pool B) s a s' :
  m s = (Return a, s') -> bind m k s = k a s'.
Proof. unfold bind. by intros ->. Qed.

Lemma run_bind_raise {A B} (m : M pool A) (k : A -> M pool B) s e s' :
  m s = (Raise e, s') -> bind m k s = (Raise e, s').
Proof. unfold bind. by intros ->. Qed.

Lemma run_popleft_cons s a q :
  _proxy_queue s = a :: q ->
  _ProxyQueue.popleft s = (Return a, set_proxy_queue (fun _ => q) s).
Proof. unfold _ProxyQueue.popleft, bind, get. by intros ->. Qed.

Lemma run_popleft_nil s :
  _proxy_queue s = [] -> _ProxyQueue.popleft s = (Raise IndexError, s).
Proof. unfold _ProxyQueue.popleft, bind, get. by intros ->. Qed.

Lemma run_getitem_Some s item p :
  _proxy_dict s !! item = Some p ->
  _ProxyDict.__getitem__ item s = (Return p, s).
Proof. unfold _ProxyDict.__getitem__, bind, get. by intros ->. Qed.

Lemma run_getitem_None s item :
  _proxy_dict s !! item = None ->
  _ProxyDict.__getitem__ item s = (Raise (UnknownProxy item), s).
Proof. unfold _ProxyDict.__getitem__, bind, get. by intros ->. Qed.

Lemma run_update s key f :
  _ProxyDict.update key f s = (Return tt, set_proxy_dict (alter f key) s).
Proof. done. Qed.

Lemma run_setitem s key v :
  _ProxyDict.__setitem__ key v s = (Return tt, set_proxy_dict (insert key v) s).
Proof. done. Qed.

Lemma run_try_except_return {A} (m h : M pool A) caught s a s' :
  m s = (Return a, s') -> try_except m caught h s = (Return a, s').
Proof. unfold try_except. by intros ->. Qed.

Lemma run_try_except_caught {A} (m h : M pool A) caught s s' :
  m s = (Raise caught, s') -> try_except m caught h s = h s'.
Proof. unfold try_except. intros ->. by rewrite decide_True. Qed.

Lemma run_try_except_other {A} (m h : M pool A) caught s e s' :
  m s = (Raise e, s') -> e <> caught ->
  try_except m caught h s = (Raise e, s').
Proof. unfold try_except. intros -> Hne. by rewrite decide_False. Qed.
End Steps.

(** * Lemmas on quiet computations *)

Lemma quiet_ret {A} (a : A) : quiet (ret a).
Proof. by intros s. Qed.

Lemma quiet_raise {A} e : e <> IndexError -> quiet (raise (A := A) e).
Proof. intros He s. split; [done|]. simpl. congruence. Qed.

Lemma quiet_get : quiet get.
Proof. by intros s. Qed.

Lemma quiet_modify_queue f : quiet (modify (set_proxy_queue f)).
Proof. by intros s. Qed.

Lemma quiet_modify_dict f : quiet (modify (set_proxy_dict f)).
Proof. by intros s. Qed.

Lemma quiet_bind {A B} (m : M pool A) (k : A -> M pool B) :
  quiet m -> (forall a, quiet (k a)) -> quiet (bind m k).
Proof.
  intros Hm Hk s. unfold bind. destruct (Hm s) as [Hc He].
  destruct (m s) as [[a|e] s1]; simpl in *.
  - destruct (Hk a s1) as [Hc' He']. split; [congruence|done].
  - split; [done|]. intros [= ->]. by apply He.
Qed.

#[global] Hint Resolve quiet_ret quiet_get quiet_modify_queue quiet_modify_dict
  quiet_bind : quiet.
#[global] Hint Extern 1 (quiet (raise _)) => (apply quiet_raise; discriminate) : quiet.

Lemma put_scan_raises d proxy q : forall i e,
  _ProxyQueue.put_scan d proxy i q = Raise e -> exists a, e = UnknownProxy a.
Proof.
  induction q as [|a q IH]; intros i e; simpl; [done|].
  destruct (d !! a); [|intros [= <-]; by eexists].
  case_bool_decide; [done|apply IH].
Qed.

Lemma quiet_getitem item : quiet (_ProxyDict.__getitem__ item).
Proof.
  unfold _ProxyDict.__getitem__. apply quiet_bind; [auto with quiet|].
  intros s. destruct (_proxy_dict s !! item); auto with quiet.
Qed.

Lemma quiet_update key f : quiet (_ProxyDict.update key f).
Proof. unfold _ProxyDict.update. auto with quiet. Qed.

Lemma quiet_put proxy : quiet (_ProxyQueue.put proxy).
Proof.
  unfold _ProxyQueue.put. apply quiet_bind; [auto with quiet|]. intros _.
  apply quiet_bind; [auto with quiet|]. intros s.
  destruct (_ProxyQueue.put_scan _ _ _ _) as [[[|j]|]|e] eqn:Hscan;
    auto with quiet.
  apply put_scan_raises in Hscan as [a ->]. auto with quiet.
Qed.

#[global] Hint Resolve quiet_getitem quiet_update quiet_put : quiet.

Lemma quiet_return_proxy proxy : quiet (ProxyPool.return_proxy proxy).
Proof.
  unfold ProxyPool.return_proxy.
  repeat (apply quiet_bind; [auto with quiet|]; intros ?).
  destruct (ProxyPool.proxy_valid_to_give _ _ _ _); auto with quiet.
Qed.

#[global] Hint Resolve quiet_return_proxy : quiet.

(** After a successful [popleft], the rest of the [try] block. *)
Lemma get_proxy_try_cons prev_proxy now s a q :
  _proxy_queue s = a :: q ->
  replenish_calls (snd (ProxyPool.get_proxy_try prev_proxy now s)) = replenish_calls s
  /\ fst (ProxyPool.get_proxy_try prev_proxy now s) <> Raise IndexError.
Proof.
  intros Hq. unfold ProxyPool.get_proxy_try.
  erewrite run_bind_return by (by apply run_popleft_cons).
  match goal with
  | |- context [bind ?m ?k (set_proxy_queue ?g s)] =>
      assert (Hquiet : quiet (bind m k)); [|apply (Hquiet (set_proxy_queue g s))]
  end.
  apply quiet_bind; [auto with quiet|]. intros p.
  destruct (ProxyData.is_timeout now p); [auto with quiet|].
  apply quiet_bind; [destruct prev_proxy; auto with quiet|].
  auto with quiet.
Qed.

Lemma get_proxy_try_nil prev_proxy now s :
  _proxy_queue s = [] ->
  ProxyPool.get_proxy_try prev_proxy now s = (Raise IndexError, s).
Proof.
  intros Hq. unfold ProxyPool.get_proxy_try.
  by erewrite run_bind_raise by (by apply run_popleft_nil).
Qed.

(** * Properties of the pool *)

(** C4 (as stated, refuted): after a [put] an identifier may occur more
    than once.  In the pool built from ["a"; "a"] the queue holds "a"
    twice; putting the registered endpoint "a" removes one occurrence
    and inserts one, so "a" is still there twice. *)
Lemma put_duplicates_remain :
  _ProxyQueue.put (ProxyData.__init__ "a") pool_aa
  = (Return tt, pool_aa)
  /\ _proxy_queue pool_aa = ["a"; "a"]
  /\ ~ NoDup (_proxy_queue (snd (_ProxyQueue.put (ProxyData.__init__ "a") pool_aa))).
Proof.
  split; [reflexivity|]. split; [reflexivity|].
  vm_compute. intros Hnd. apply NoDup_cons in Hnd as [Hn _].
  apply Hn, elem_of_cons. by left.
Qed.

(** C4 (amended): in a pool whose queued identifiers are all registered,
    [put] returns normally and touches the queue only: the identifier is
    removed if it was present, then placed after a front part whose
    entries all expire strictly before the new entry and before a back
    part that is empty or starts with an entry expiring no earlier; this
    is the specification's [put].  If no identifier occurred twice in
    the queue before, none does after. *)
Theorem put_inserts_by_timeout (proxy : ProxyData.t) (s : pool) :
  queue_registered (_proxy_dict s) (_proxy_queue s) ->
  exists front back,
    Spec.remove (ProxyData.proxy_url proxy) (_proxy_queue s) = front ++ back
    /\ _ProxyQueue.put proxy s
       = (Return tt,
          set_proxy_queue (fun _ => front ++ ProxyData.proxy_url proxy :: back) s)
    /\ Forall (fun a => timeout_until (_proxy_dict s) a < ProxyData.timeout proxy) front
    /\ match back with
       | [] => True
       | b :: _ => ProxyData.timeout proxy <= timeout_until (_proxy_dict s) b
       end
    /\ front ++ ProxyData.proxy_url proxy :: back
       = Spec.put (timeout_until (_proxy_dict s)) (ProxyData.timeout proxy)
                  (ProxyData.proxy_url proxy) (_proxy_queue s)
    /\ (NoDup (_proxy_queue s) ->
        NoDup (front ++ ProxyData.proxy_url proxy :: back)).
Proof.
  intros Hreg.
  destruct (spec_insert_position (timeout_until (_proxy_dict s))
              (ProxyData.timeout proxy) (ProxyData.proxy_url proxy)
              (Spec.remove (ProxyData.proxy_url proxy) (_proxy_queue s)))
    as (front & back & Hsplit & Hins & Hfront & Hback).
  exists front, back. split; [done|].
  assert (Hput : front ++ ProxyData.proxy_url proxy :: back
                 = Spec.put (timeout_until (_proxy_dict s)) (ProxyData.timeout proxy)
                     (ProxyData.proxy_url proxy) (_proxy_queue s))
    by (unfold Spec.put; by rewrite Hins).
  split; [|split; [done|split; [done|split; [done|]]]].
  - rewrite (put_ok _ _ Hreg), Hput. done.
  - intros Hnd. rewrite Hput. by apply spec_put_NoDup.
Qed.

Lemma put_inserts_by_timeout_witness :
  queue_registered (_proxy_dict pool_a_cooling) (_proxy_queue pool_a_cooling)
  /\ exists front back,
    Spec.remove "b" (_proxy_queue pool_a_cooling) = front ++ back
    /\ _ProxyQueue.put (ProxyData.mk "b" 20 false 0 1 0) pool_a_cooling
       = (Return tt, set_proxy_queue (fun _ => front ++ "b" :: back) pool_a_cooling)
    /\ Forall (fun a => timeout_until (_proxy_dict pool_a_cooling) a < 20) front
    /\ match back with
       | [] => True
       | b :: _ => 20 <= timeout_until (_proxy_dict pool_a_cooling) b
       end
    /\ front ++ "b" :: back
       = Spec.put (timeout_until (_proxy_dict pool_a_cooling)) 20 "b"
                  (_proxy_queue pool_a_cooling)
    /\ (NoDup (_proxy_queue pool_a_cooling) -> NoDup (front ++ "b" :: back)).
Proof.
  assert (Hreg : queue_registered (_proxy_dict pool_a_cooling)
                                  (_proxy_queue pool_a_cooling))
    by (vm_compute; repeat constructor; by eexists).
  split; [exact Hreg|].
  exact (put_inserts_by_timeout (ProxyData.mk "b" 20 false 0 1 0) pool_a_cooling Hreg).
Defined.

(** The [try] block of [get_proxy] on a front endpoint in cooldown. *)
Lemma get_proxy_try_cooldown (prev_proxy : option string) (now : Z)
      (s : pool) (a : string) (q : list string) (p : ProxyData.t) :
  _proxy_queue s = a :: q ->
  _proxy_dict s !! a = Some p ->
  now < ProxyData.timeout p ->
  queue_registered (_proxy_dict s) q ->
  ProxyPool.get_proxy_try prev_proxy now s
  = (Raise (ProxiesTimeout (ProxyData.timeout p)),
     set_proxy_queue
       (fun _ => Spec.put (timeout_until (_proxy_dict s)) (ProxyData.timeout p)
                          (ProxyData.proxy_url p) q) s).
Proof.
  intros Hq Ha Hnow Hreg. unfold ProxyPool.get_proxy_try.
  erewrite run_bind_return by (by apply run_popleft_cons).
  erewrite run_bind_return by (by apply run_getitem_Some).
  unfold ProxyData.is_timeout. rewrite bool_decide_eq_true_2 by lia.
  erewrite run_bind_return by (by apply put_ok).
  destruct s; done.
Qed.

(** C6 (amended): when the identifier at the front of the queue is registered and
    still in cooldown at the clock reading [now], and the identifiers
    behind it are registered, [get_proxy] raises [ProxiesTimeout] with
    that endpoint's [timeout]; the pool it leaves differs from the one it
    found in the order of the queue only.  The popped identifier is back
    in the queue, the queue holds the same identifiers as before, the
    registry is untouched (no [given_out_counter] has moved, so
    [prev_proxy] was not returned) and the callback was not invoked. *)
Theorem get_proxy_front_in_cooldown
    (f : option callback) (prev_proxy : option string) (_replenish : bool)
    (now now' : Z) (s : pool) (a : string) (q : list string) (p : ProxyData.t) :
  _proxy_queue s = a :: q ->
  _proxy_dict s !! a = Some p ->
  ProxyData.proxy_url p = a ->
  now < ProxyData.timeout p ->
  queue_registered (_proxy_dict s) q ->
  exists s',
    ProxyPool.get_proxy f prev_proxy _replenish now now' s
    = (Raise (ProxiesTimeout (ProxyData.timeout p)), s')
    /\ s' = set_proxy_queue
              (fun _ => Spec.put (timeout_until (_proxy_dict s))
                                 (ProxyData.timeout p) a q) s
    /\ a ∈ _proxy_queue s'
    /\ (forall x, x ∈ _proxy_queue s' <-> x ∈ _proxy_queue s)
    /\ _proxy_dict s' = _proxy_dict s
    /\ replenish_calls s' = replenish_calls s.
Proof.
  intros Hq Ha Hurl Hnow Hreg. eexists. split; [|split; [reflexivity|]].
  - unfold ProxyPool.get_proxy, ProxyPool.get_proxy_body.
    rewrite (run_try_except_other _ _ _ _ _ _
               (get_proxy_try_cooldown _ _ _ _ _ _ Hq Ha Hnow Hreg)) by done.
    by rewrite Hurl.
  - simpl. rewrite Hq. split; [|split; [|done]].
    + apply spec_put_elem_of. by left.
    + intros x. rewrite spec_put_elem_of, elem_of_cons. done.
Qed.

Lemma get_proxy_front_in_cooldown_witness :
  exists s',
    ProxyPool.get_proxy None (Some "b") true 12 12 pool_a_cooling
    = (Raise (ProxiesTimeout 15), s')
    /\ s' = set_proxy_queue
              (fun _ => Spec.put (timeout_until (_proxy_dict pool_a_cooling))
                                 15 "a" ["b"]) pool_a_cooling
    /\ "a" ∈ _proxy_queue s'
    /\ (forall x, x ∈ _proxy_queue s' <-> x ∈ _proxy_queue pool_a_cooling)
    /\ _proxy_dict s' = _proxy_dict pool_a_cooling
    /\ replenish_calls s' = replenish_calls pool_a_cooling.
Proof.
  apply (get_proxy_front_in_cooldown None (Some "b") true 12 12 pool_a_cooling
           "a" ["b"] (ProxyData.mk "a" 15 false 0 1 0)).
  - reflexivity.
  - reflexivity.
  - reflexivity.
  - simpl. lia.
  - vm_compute. repeat constructor. by eexists.
Defined.
Lemma set_proxy_dict_alter (s : pool) (i : string) (f : ProxyData.t -> ProxyData.t) (x : ProxyData.t) :
  _proxy_dict s !! i = Some x ->
  set_proxy_dict (alter f i) s = set_proxy_dict (insert i (f x)) s.
Proof. intros Hx. unfold set_proxy_dict. by rewrite (alter_lookup_insert _ _ _ _ Hx). Qed.

(** [return_proxy] step by step, on a registered identifier. *)
Lemma return_proxy_run (s : pool) (id : string) (p : ProxyData.t) :
  _proxy_dict s !! id = Some p ->
  queue_registered (_proxy_dict s) (_proxy_queue s) ->
  let p' := ProxyData.set_given_out_counter (ProxyData.given_out_counter p - 1) p in
  let s1 := set_proxy_dict (insert id p') s in
  ProxyPool.return_proxy id s
  = (Return tt,
     if decide (Spec.eligible s p')
     then set_proxy_queue
            (Spec.put (timeout_until (_proxy_dict s)) (ProxyData.timeout p)
                      (ProxyData.proxy_url p)) s1
     else s1).
Proof.
  intros Hp Hreg p' s1. unfold ProxyPool.return_proxy.
  erewrite run_bind_return by (by apply run_getitem_Some).
  erewrite run_bind_return by apply run_update.
  rewrite (set_proxy_dict_alter _ _ _ _ Hp). fold p'. fold s1.
  assert (Hp' : _proxy_dict s1 !! id = Some p') by apply lookup_insert_eq.
  erewrite run_bind_return by (by apply run_getitem_Some).
  unfold bind at 1, get at 1.
  destruct (decide (Spec.eligible s p')) as [He|He].
  - rewrite (proj2 (proxy_valid_to_give_eligible s1 0 p') He).
    rewrite put_ok by (by apply queue_registered_insert).
    f_equal. unfold set_proxy_queue. simpl. f_equal.
    apply spec_put_ext. intros a. unfold timeout_until.
    rewrite lookup_insert. case_decide; [subst; by rewrite Hp|done].
  - destruct (ProxyPool.proxy_valid_to_give s1 0 p' true) eqn:Hv; [|done].
    by apply proxy_valid_to_give_eligible in Hv.
Qed.

(** C7 (amended): [return_proxy] on a registered identifier (in a pool whose
    queued identifiers are all registered) returns normally and lowers
    that endpoint's [given_out_counter] by one.  It then puts the
    endpoint back into the queue if and only if the endpoint, after the
    decrement, is eligible with the cooldown ignored (not banned, under
    the use ceiling, under the timeout ceiling); otherwise the queue is
    left as it was.  An endpoint in cooldown that is otherwise eligible
    is therefore queued, and a banned one is never put back. *)
Theorem return_proxy_requeues_iff_eligible (s : pool) (id : string) (p : ProxyData.t) :
  _proxy_dict s !! id = Some p ->
  ProxyData.proxy_url p = id ->
  queue_registered (_proxy_dict s) (_proxy_queue s) ->
  exists s',
    ProxyPool.return_proxy id s = (Return tt, s')
    /\ _proxy_dict s'
       = <[id := ProxyData.set_given_out_counter
                   (ProxyData.given_out_counter p - 1) p]> (_proxy_dict s)
    /\ (Spec.eligible s (ProxyData.set_given_out_counter
                           (ProxyData.given_out_counter p - 1) p) ->
        _proxy_queue s'
        = Spec.put (timeout_until (_proxy_dict s)) (ProxyData.timeout p) id
                   (_proxy_queue s)
        /\ id ∈ _proxy_queue s')
    /\ (~ Spec.eligible s (ProxyData.set_given_out_counter
                             (ProxyData.given_out_counter p - 1) p) ->
        _proxy_queue s' = _proxy_queue s)
    /\ (forall now, ProxyData.is_timeout now p = true ->
        ProxyData.banned p = false ->
        (0 < max_uses s -> ProxyData.used_counter p < max_uses s) ->
        (0 < max_time_outs s -> ProxyData.timed_out_counter p < max_time_outs s) ->
        id ∈ _proxy_queue s')
    /\ (ProxyData.banned p = true -> _proxy_queue s' = _proxy_queue s).
Proof.
  intros Hp Hurl Hreg. eexists. split; [by apply return_proxy_run|].
  rewrite Hurl.
  destruct (decide (Spec.eligible s _)) as [He|He]; simpl.
  - split; [done|]. split; [|split; [done|split]].
    + intros _. split; [done|]. apply spec_put_elem_of. by left.
    + intros _ _ _ _ _. apply spec_put_elem_of. by left.
    + intros Hb. destruct He as [Hb' _]. simpl in Hb'. congruence.
  - split; [done|]. split; [done|]. split; [done|]. split; [|done].
    intros _ _ Hb Hu Ht. destruct He. by repeat split.
Qed.

Lemma return_proxy_requeues_iff_eligible_witness :
  exists s',
    ProxyPool.return_proxy "a" pool_a_cooling = (Return tt, s')
    /\ _proxy_dict s'
       = <["a" := ProxyData.set_given_out_counter
                    (ProxyData.given_out_counter (ProxyData.mk "a" 15 false 0 1 0) - 1)
                    (ProxyData.mk "a" 15 false 0 1 0)]> (_proxy_dict pool_a_cooling)
    /\ (Spec.eligible pool_a_cooling
          (ProxyData.set_given_out_counter
             (ProxyData.given_out_counter (ProxyData.mk "a" 15 false 0 1 0) - 1)
             (ProxyData.mk "a" 15 false 0 1 0)) ->
        _proxy_queue s'
        = Spec.put (timeout_until (_proxy_dict pool_a_cooling))
                   (ProxyData.timeout (ProxyData.mk "a" 15 false 0 1 0)) "a"
                   (_proxy_queue pool_a_cooling)
        /\ "a" ∈ _proxy_queue s')
    /\ (~ Spec.eligible pool_a_cooling
            (ProxyData.set_given_out_counter
               (ProxyData.given_out_counter (ProxyData.mk "a" 15 false 0 1 0) - 1)
               (ProxyData.mk "a" 15 false 0 1 0)) ->
        _proxy_queue s' = _proxy_queue pool_a_cooling)
    /\ (forall now, ProxyData.is_timeout now (ProxyData.mk "a" 15 false 0 1 0) = true ->
        ProxyData.banned (ProxyData.mk "a" 15 false 0 1 0) = false ->
        (0 < max_uses pool_a_cooling ->
         ProxyData.used_counter (ProxyData.mk "a" 15 false 0 1 0) < max_uses pool_a_cooling) ->
        (0 < max_time_outs pool_a_cooling ->
         ProxyData.timed_out_counter (ProxyData.mk "a" 15 false 0 1 0)
         < max_time_outs pool_a_cooling) ->
        "a" ∈ _proxy_queue s')
    /\ (ProxyData.banned (ProxyData.mk "a" 15 false 0 1 0) = true ->
        _proxy_queue s' = _proxy_queue pool_a_cooling).
Proof.
  apply (return_proxy_requeues_iff_eligible pool_a_cooling "a"
           (ProxyData.mk "a" 15 false 0 1 0)).
  - reflexivity.
  - reflexivity.
  - vm_compute. repeat constructor; by eexists.
Defined.

(** [add_proxy] step by step. *)
Lemma add_proxy_run (s : pool) (id : string) :
  queue_registered (_proxy_dict s) (_proxy_queue s) ->
  ProxyPool.add_proxy id s
  = (Return tt,
     set_proxy_queue
       (Spec.put (timeout_until (<[id := ProxyData.__init__ id]> (_proxy_dict s)))
                 0 id)
       (set_proxy_dict (insert id (ProxyData.__init__ id)) s)).
Proof.
  intros Hreg. unfold ProxyPool.add_proxy.
  erewrite run_bind_return by apply run_setitem.
  erewrite run_bind_return
    by (apply run_getitem_Some; simpl; apply lookup_insert_eq).
  by rewrite put_ok by (by apply queue_registered_insert).
Qed.

(** C10 (amended): [add_proxy] on an identifier that is already registered (in a
    pool whose queued identifiers are all registered) returns normally,
    replaces the registered state, whatever it was, by a fresh one (no
    cooldown, not banned, all three counters at zero) and puts the
    identifier into the queue.  The fresh state is eligible, and valid
    to give at any positive clock reading, so a banned or used-up
    endpoint is back in circulation. *)
Theorem add_proxy_existing_resets (s : pool) (id : string) (p : ProxyData.t) :
  _proxy_dict s !! id = Some p ->
  queue_registered (_proxy_dict s) (_proxy_queue s) ->
  exists s',
    ProxyPool.add_proxy id s = (Return tt, s')
    /\ _proxy_dict s' = <[id := ProxyData.mk id 0 false 0 0 0]> (_proxy_dict s)
    /\ _proxy_dict s' !! id = Some (ProxyData.mk id 0 false 0 0 0)
    /\ _proxy_queue s'
       = Spec.put (timeout_until (_proxy_dict s')) 0 id (_proxy_queue s)
    /\ id ∈ _proxy_queue s'
    /\ Spec.eligible s' (ProxyData.mk id 0 false 0 0 0)
    /\ (forall now, 0 < now ->
        ProxyPool.proxy_valid_to_give s' now (ProxyData.mk id 0 false 0 0 0) false = true).
Proof.
  intros _ Hreg. eexists. split; [by apply add_proxy_run|]. simpl.
  split; [done|]. split; [apply lookup_insert_eq|]. split; [done|].
  split; [apply spec_put_elem_of; by left|].
  split; [by repeat split|].
  intros now Hnow.
  unfold ProxyPool.proxy_valid_to_give, ProxyData.is_valid. simpl.
  rewrite !andb_true_iff, !orb_true_iff, !bool_decide_eq_true.
  repeat split.
  - destruct (decide (max_time_outs s <= 0)); [by left|right; lia].
  - destruct (decide (max_uses s <= 0)); [by left|right; lia].
  - lia.
Qed.

Lemma add_proxy_existing_resets_witness :
  exists s',
    ProxyPool.add_proxy "a" pool_a_spent = (Return tt, s')
    /\ _proxy_dict s' = <["a" := ProxyData.mk "a" 0 false 0 0 0]> (_proxy_dict pool_a_spent)
    /\ _proxy_dict s' !! "a" = Some (ProxyData.mk "a" 0 false 0 0 0)
    /\ _proxy_queue s'
       = Spec.put (timeout_until (_proxy_dict s')) 0 "a" (_proxy_queue pool_a_spent)
    /\ "a" ∈ _proxy_queue s'
    /\ Spec.eligible s' (ProxyData.mk "a" 0 false 0 0 0)
    /\ (forall now, 0 < now ->
        ProxyPool.proxy_valid_to_give s' now (ProxyData.mk "a" 0 false 0 0 0) false = true).
Proof.
  apply (add_proxy_existing_resets pool_a_spent "a" (ProxyData.mk "a" 0 true 1 0 1)).
  - reflexivity.
  - vm_compute. repeat constructor; by eexists.
Defined.

(** The retry: a second run of the [try] block, without replenishment. *)
Lemma get_proxy_retry_run f prev_proxy now' s :
  ProxyPool.get_proxy_retry f prev_proxy now' s
  = match _proxy_queue s with
    | [] => (Raise NoValidProxies, s)
    | _ :: _ => ProxyPool.get_proxy_try prev_proxy now' s
    end.
Proof.
  unfold ProxyPool.get_proxy_retry, ProxyPool.get_proxy_body.
  destruct (_proxy_queue s) as [|a q] eqn:Hq.
  - rewrite (run_try_except_caught _ _ _ _ _ (get_proxy_try_nil _ _ _ Hq)).
    by destruct f.
  - destruct (get_proxy_try_cons prev_proxy now' s a q Hq) as [_ Hne].
    unfold try_except.
    destruct (ProxyPool.get_proxy_try prev_proxy now' s) as [[x|e] s1]; [done|].
    simpl in Hne. rewrite decide_False; [done|congruence].
Qed.

Lemma get_proxy_retry_calls f prev_proxy now' s :
  replenish_calls (snd (ProxyPool.get_proxy_retry f prev_proxy now' s))
  = replenish_calls s.
Proof.
  rewrite get_proxy_retry_run. destruct (_proxy_queue s) as [|a q] eqn:Hq; [done|].
  by destruct (get_proxy_try_cons prev_proxy now' s a q Hq).
Qed.

(** [get_proxy] when [popleft] finds nothing: the handler runs on the
    pool as found. *)
Lemma get_proxy_body_empty f self prev_proxy _replenish now s :
  _proxy_queue s = [] ->
  ProxyPool.get_proxy_body f self prev_proxy _replenish now s
  = match f, _replenish with
    | Some g, true => (ProxyPool.replenish_proxies g ;;; self prev_proxy) s
    | _, _ => (Raise NoValidProxies, s)
    end.
Proof.
  intros Hq. unfold ProxyPool.get_proxy_body.
  rewrite (run_try_except_caught _ _ _ _ _ (get_proxy_try_nil _ _ _ Hq)).
  by destruct f, _replenish.
Qed.

Lemma replenish_proxies_calls g s :
  replenish_calls (snd (ProxyPool.replenish_proxies g s)) = S (replenish_calls s).
Proof.
  unfold ProxyPool.replenish_proxies. by destruct (g (replenish_calls s) s).
Qed.

(** X2: in any pool, whatever the arguments, one call of [get_proxy]
    invokes the callback at most once. *)
Lemma get_proxy_calls_bound f prev_proxy _replenish now now' s :
  (replenish_calls s
   <= replenish_calls (snd (ProxyPool.get_proxy f prev_proxy _replenish now now' s))
   <= S (replenish_calls s))%nat.
Proof.
  unfold ProxyPool.get_proxy. destruct (_proxy_queue s) as [|a q] eqn:Hq.
  - rewrite get_proxy_body_empty by done.
    destruct f as [g|], _replenish; simpl; try lia.
    unfold bind. pose proof (replenish_proxies_calls g s) as Hc.
    destruct (ProxyPool.replenish_proxies g s) as [[[]|e] s1]; simpl in *; [|lia].
    rewrite get_proxy_retry_calls. lia.
  - destruct (get_proxy_try_cons prev_proxy now s a q Hq) as [Hc Hne].
    unfold ProxyPool.get_proxy_body, try_except.
    destruct (ProxyPool.get_proxy_try prev_proxy now s) as [[x|e] s1];
      simpl in *; [lia|].
    rewrite decide_False by congruence. simpl. lia.
Qed.

(** C5: [get_proxy] on a pool whose queue is empty.  With no callback
    configured (or with [_replenish=False]) it raises [NoValidProxies]
    and leaves the pool as it found it.  With a callback [f] configured
    it invokes [f] once, on the pool as found: an exception of [f]
    propagates; otherwise the pop is tried once more, and this second
    attempt raises [NoValidProxies] if the queue is still empty and else
    runs the [try] block on the replenished pool.  Whatever the outcome,
    the callback has been invoked exactly once. *)
Theorem get_proxy_empty_queue (prev_proxy : option string) (now now' : Z) (s : pool) :
  _proxy_queue s = [] ->
  ProxyPool.get_proxy None prev_proxy true now now' s = (Raise NoValidProxies, s)
  /\ (forall f, ProxyPool.get_proxy f prev_proxy false now now' s
                = (Raise NoValidProxies, s))
  /\ (forall f : callback,
        ProxyPool.get_proxy (Some f) prev_proxy true now now' s
        = match f (replenish_calls s) s with
          | (Raise e, s1) =>
              (Raise e, set_replenish_calls (S (replenish_calls s)) s1)
          | (Return _, s1) =>
              match _proxy_queue s1 with
              | [] =>
                  (Raise NoValidProxies,
                   set_replenish_calls (S (replenish_calls s)) s1)
              | _ :: _ =>
                  ProxyPool.get_proxy_try prev_proxy now'
                    (set_replenish_calls (S (replenish_calls s)) s1)
              end
          end
        /\ replenish_calls
             (snd (ProxyPool.get_proxy (Some f) prev_proxy true now now' s))
           = S (replenish_calls s)).
Proof.
  intros Hq. unfold ProxyPool.get_proxy.
  split; [by rewrite get_proxy_body_empty|].
  split; [intros f; rewrite get_proxy_body_empty by done; by destruct f|].
  intros f. rewrite get_proxy_body_empty by done.
  unfold bind, ProxyPool.replenish_proxies.
  destruct (f (replenish_calls s) s) as [[[]|e] s1]; [|done].
  rewrite get_proxy_retry_run. simpl.
  destruct (_proxy_queue s1) as [|a q] eqn:Hq1; [done|]. split; [done|].
  by destruct (get_proxy_try_cons prev_proxy now'
                 (set_replenish_calls (S (replenish_calls s)) s1) a q Hq1).
Qed.

Lemma get_proxy_empty_queue_witness :
  ProxyPool.get_proxy None None true 1 2 pool_empty = (Raise NoValidProxies, pool_empty)
  /\ (forall f, ProxyPool.get_proxy f None false 1 2 pool_empty
                = (Raise NoValidProxies, pool_empty))
  /\ (forall f : callback,
        ProxyPool.get_proxy (Some f) None true 1 2 pool_empty
        = match f (replenish_calls pool_empty) pool_empty with
          | (Raise e, s1) =>
              (Raise e, set_replenish_calls (S (replenish_calls pool_empty)) s1)
          | (Return _, s1) =>
              match _proxy_queue s1 with
              | [] =>
                  (Raise NoValidProxies,
                   set_replenish_calls (S (replenish_calls pool_empty)) s1)
              | _ :: _ =>
                  ProxyPool.get_proxy_try None 2
                    (set_replenish_calls (S (replenish_calls pool_empty)) s1)
              end
          end
        /\ replenish_calls
             (snd (ProxyPool.get_proxy (Some f) None true 1 2 pool_empty))
           = S (replenish_calls pool_empty)).
Proof.
  apply (get_proxy_empty_queue None 1 2 pool_empty). reflexivity.
Defined.

(** The scenario of the specification: an empty pool whose callback adds
    "c" hands out "c" after one invocation of the callback. *)
Example get_proxy_replenished :
  let r := ProxyPool.get_proxy (Some replenish_c) None true 1 2 pool_empty in
  fst r = Return "c"
  /\ replenish_calls (snd r) = 1%nat
  /\ _proxy_queue (snd r) = [].
Proof. by vm_compute. Qed.

(** ** Where the code departs from its specification *)

(** [dict.pop] on a missing key: the built-in [KeyError], whatever the
    pool. *)
Lemma remove_proxy_unregistered (s : pool) (proxy : string) :
  _proxy_dict s !! proxy = None ->
  ProxyPool.remove_proxy proxy s = (Raise (KeyError proxy), s).
Proof.
  intros Hnone. unfold ProxyPool.remove_proxy, _ProxyDict.pop, bind, get.
  by rewrite Hnone.
Qed.

(** [deque.remove] on an identifier that is not queued: [ValueError]. *)
Lemma queue_remove_absent (s : pool) (item : string) :
  item ∉ _proxy_queue s ->
  _ProxyQueue.remove item s = (Raise ValueError, s).
Proof.
  intros Hn. unfold _ProxyQueue.remove, bind, get.
  by rewrite deque_remove_absent.
Qed.

(** With no previous endpoint to return, [get_proxy] hands out the
    front of the queue as soon as it is registered and out of cooldown:
    neither the ban flag nor the counters are looked at. *)
Lemma get_proxy_gives_front f _replenish now now' s a q p :
  _proxy_queue s = a :: q ->
  _proxy_dict s !! a = Some p ->
  ProxyData.timeout p <= now ->
  ProxyPool.get_proxy f None _replenish now now' s
  = (Return a,
     set_proxy_dict
       (alter (fun p => ProxyData.set_given_out_counter
                          (ProxyData.given_out_counter p + 1) p) a)
       (set_proxy_queue (fun _ => q) s)).
Proof.
  intros Hq Ha Hnow. unfold ProxyPool.get_proxy, ProxyPool.get_proxy_body.
  apply run_try_except_return. unfold ProxyPool.get_proxy_try.
  erewrite run_bind_return by (by apply run_popleft_cons).
  erewrite run_bind_return by (by apply run_getitem_Some).
  unfold ProxyData.is_timeout. rewrite bool_decide_eq_false_2 by lia.
  erewrite run_bind_return by reflexivity.
  by erewrite run_bind_return by apply run_update.
Qed.

(** C6 (as stated, refuted): a front endpoint in cooldown is not always
    re-inserted.  In the pool built from ["b"; "a"; "a"],
    [remove_proxy("a")] leaves one "a" in the queue and none in the
    registry.  After [timeout_proxy("b", 100)] at time 1, "b" is at the
    front and in cooldown at time 2; [get_proxy] pops it, the scan of
    [put] fails on the lookup of "a", and the call raises
    [UnknownProxy], not [ProxiesTimeout], with "b" gone from the
    queue. *)
Lemma get_proxy_stale_entry :
  _proxy_queue pool_stale = ["b"; "a"]
  /\ _proxy_dict pool_stale !! "a" = None
  /\ (let s := snd (ProxyPool.timeout_proxy 1 "b" 100 pool_stale) in
      _proxy_queue s = ["b"; "a"]
      /\ _proxy_dict s !! "b" = Some (ProxyData.mk "b" 101 false 0 1 0)
      /\ ProxyData.is_timeout 2 (ProxyData.mk "b" 101 false 0 1 0) = true
      /\ fst (ProxyPool.get_proxy None None true 2 3 s) = Raise (UnknownProxy "a")
      /\ "b" ∉ _proxy_queue (snd (ProxyPool.get_proxy None None true 2 3 s))).
Proof.
  repeat split; try (by vm_compute).
  vm_compute. intros Hin.
  repeat (apply elem_of_cons in Hin as [Hin|Hin]; [discriminate|]).
  by apply elem_of_nil in Hin.
Qed.

(** C7 (as stated, refuted): a known, eligible endpoint is not always
    re-queued.  In the same pool "b" is registered, eligible and
    queued; [return_proxy("b")] lowers its counter, [put] removes "b"
    from the queue, its scan fails on the unregistered "a", and the call
    raises [UnknownProxy] with "b" no longer queued. *)
Lemma return_proxy_stale_entry :
  _proxy_dict pool_stale !! "b" = Some (ProxyData.__init__ "b")
  /\ Spec.eligible pool_stale
       (ProxyData.set_given_out_counter
          (ProxyData.given_out_counter (ProxyData.__init__ "b") - 1)
          (ProxyData.__init__ "b"))
  /\ "b" ∈ _proxy_queue pool_stale
  /\ fst (ProxyPool.return_proxy "b" pool_stale) = Raise (UnknownProxy "a")
  /\ "b" ∉ _proxy_queue (snd (ProxyPool.return_proxy "b" pool_stale)).
Proof.
  split; [reflexivity|]. split; [split; [reflexivity|split; simpl; lia]|].
  split; [apply elem_of_cons; by left|]. split; [reflexivity|].
  vm_compute. intros Hin.
  repeat (apply elem_of_cons in Hin as [Hin|Hin]; [discriminate|]).
  by apply elem_of_nil in Hin.
Qed.

(** C10 (as stated, refuted): [add_proxy] on a registered identifier does
    not always re-insert it.  In the same pool [add_proxy("b")] replaces
    the state of "b", [put] removes "b" from the queue, its scan fails
    on the unregistered "a", and the call raises [UnknownProxy] with "b"
    no longer queued. *)
Lemma add_proxy_stale_entry :
  is_Some (_proxy_dict pool_stale !! "b")
  /\ fst (ProxyPool.add_proxy "b" pool_stale) = Raise (UnknownProxy "a")
  /\ "b" ∉ _proxy_queue (snd (ProxyPool.add_proxy "b" pool_stale)).
Proof.
  split; [by eexists|]. split; [reflexivity|].
  vm_compute. intros Hin.
  repeat (apply elem_of_cons in Hin as [Hin|Hin]; [discriminate|]).
  by apply elem_of_nil in Hin.
Qed.

(** C1 (code departs): [get_proxy] checks the cooldown of the popped
    endpoint and nothing else, and banning, using or timing out an
    endpoint leaves it queued.  Each of the three pools below is reached
    from [ProxyPool(["a"])] by one public call: after [ban_proxy("a")],
    [get_proxy] returns "a", which is banned; with [max_uses=1], after
    [use_proxy("a")], it returns "a" with [used_counter = 1]; with
    [max_time_outs=1], after [timeout_proxy("a", 0)] at time 1, it
    returns "a" at time 2 with [timed_out_counter = 1]. *)
Example get_proxy_returns_ineligible :
  (let s := step None (Ban_proxy "a") (ProxyPool.__init__ ["a"] 0 0 0) in
   reachable None s
   /\ fst (ProxyPool.get_proxy None None true 1 2 s) = Return "a"
   /\ ProxyData.banned <$> _proxy_dict s !! "a" = Some true)
  /\ (let s := step None (Use_proxy 1 "a") (ProxyPool.__init__ ["a"] 0 1 0) in
      reachable None s
      /\ fst (ProxyPool.get_proxy None None true 1 2 s) = Return "a"
      /\ max_uses s = 1
      /\ ProxyData.used_counter <$> _proxy_dict s !! "a" = Some 1)
  /\ (let s := step None (Timeout_proxy 1 "a" 0) (ProxyPool.__init__ ["a"] 1 0 0) in
      reachable None s
      /\ fst (ProxyPool.get_proxy None None true 2 3 s) = Return "a"
      /\ max_time_outs s = 1
      /\ ProxyData.timed_out_counter <$> _proxy_dict s !! "a" = Some 1).
Proof.
  repeat split; try (by vm_compute);
    apply reachable_step, reachable_init, NoDup_singleton.
Qed.

(** C3 (code departs): a handle built for a given identifier does not
    raise [given_out_counter], yet its [__del__] lowers it.  On
    [ProxyPool(["a"])], [h = pool.Proxy("a")] followed by [del h] leaves
    the counter of "a" at -1. *)
Example handle_release_goes_negative :
  let r := (h <- ProxyPool_Proxy None (Some "a") 1 2 ;; Proxy.__del__ h)
             (ProxyPool.__init__ ["a"] 0 0 0) in
  fst r = Return tt
  /\ ProxyData.given_out_counter <$> _proxy_dict (snd r) !! "a" = Some (-1).
Proof. by vm_compute. Qed.

(** C8 (code departs): [remove_proxy] on an identifier that is not
    registered raises the built-in [KeyError], not [UnknownProxy]; the
    other methods, which look the identifier up with
    [self._proxy_dict[proxy]], raise [UnknownProxy]. *)
Example remove_proxy_unknown_raises_KeyError :
  ProxyPool.remove_proxy "x" pool_ab = (Raise (KeyError "x"), pool_ab)
  /\ ProxyPool.ban_proxy "x" pool_ab = (Raise (UnknownProxy "x"), pool_ab)
  /\ ProxyPool.return_proxy "x" pool_ab = (Raise (UnknownProxy "x"), pool_ab).
Proof. by vm_compute. Qed.

(** C9 (code departs): the queue's [remove] raises [ValueError] for an
    identifier that is not queued.  On [ProxyPool(["a", "b"])], once
    [get_proxy()] has handed out "a", [remove_proxy("a")] deletes "a"
    from the registry and then raises [ValueError]. *)
Example remove_checked_out_raises_ValueError :
  _ProxyQueue.remove "x" pool_ab = (Raise ValueError, pool_ab)
  /\ (let r := (ProxyPool.get_proxy None None true 1 2 ;;; ProxyPool.remove_proxy "a")
                 pool_ab in
      fst r = Raise ValueError
      /\ _proxy_dict (snd r) !! "a" = None
      /\ _proxy_queue (snd r) = ["b"]).
Proof. by vm_compute. Qed.

(** * Well-formedness is an invariant of the public operations *)

Section WellFormed.
Implicit Types (s : pool) (d : gmap string ProxyData.t) (q : list string).

Lemma wf_init proxy_list mt mu tu :
  NoDup proxy_list -> wf (ProxyPool.__init__ proxy_list mt mu tu).
Proof.
  intros Hnd.
  assert (Hfold : forall l d,
    map_Forall (fun k p => ProxyData.proxy_url p = k) d ->
    map_Forall (fun k p => ProxyData.proxy_url p = k)
      (foldl (fun d a => <[a := ProxyData.__init__ a]> d) d l)
    /\ forall a, a ∈ l \/ is_Some (d !! a) ->
         is_Some (foldl (fun d a => <[a := ProxyData.__init__ a]> d) d l !! a)).
  { induction l as [|x l IH]; intros d Hd; simpl.
    - split; [done|]. intros a [Ha|Ha]; [by apply elem_of_nil in Ha|done].
    - destruct (IH (<[x := ProxyData.__init__ x]> d)) as [IH1 IH2].
      { by apply map_Forall_insert_2. }
      split; [done|]. intros a Ha. apply IH2.
      rewrite lookup_insert. case_decide; [right; by eexists|].
      destruct Ha as [Ha|Ha]; [|by right].
      apply elem_of_cons in Ha as [->|Ha]; [done|by left]. }
  destruct (Hfold proxy_list ∅) as [Hk Hr]; [apply map_Forall_empty|].
  split; simpl; [done| |done].
  apply Forall_forall. intros a Ha. apply Hr. by left.
Qed.

Lemma wf_set_dict_alter s key (f : ProxyData.t -> ProxyData.t) :
  (forall p, ProxyData.proxy_url (f p) = ProxyData.proxy_url p) ->
  wf s -> wf (set_proxy_dict (alter f key) s).
Proof.
  intros Hf [Hk Hr Hn]. split; simpl; [|by apply queue_registered_alter|done].
  intros k p. rewrite lookup_alter. case_decide; [subst|apply Hk].
  destruct (_proxy_dict s !! k) as [p0|] eqn:Hp0; simpl; [|done].
  intros [= <-]. rewrite Hf. by apply (Hk k).
Qed.

(** A method that looks [key] up and then updates it in place. *)
Lemma wf_lookup_update s key (f : pool -> ProxyData.t -> ProxyData.t) :
  (forall s p, ProxyData.proxy_url (f s p) = ProxyData.proxy_url p) ->
  wf s ->
  wf (snd ((_ProxyDict.__getitem__ key ;;;
            (s0 <- get ;; _ProxyDict.update key (f s0))) s)).
Proof.
  intros Hf Hwf. destruct (_proxy_dict s !! key) as [p|] eqn:Hp.
  - erewrite run_bind_return by (by apply run_getitem_Some).
    unfold bind, get. rewrite run_update. simpl. by apply wf_set_dict_alter.
  - by erewrite run_bind_raise by (by apply run_getitem_None).
Qed.

Lemma wf_lookup_update_plain s key (f : ProxyData.t -> ProxyData.t) :
  (forall p, ProxyData.proxy_url (f p) = ProxyData.proxy_url p) ->
  wf s ->
  wf (snd ((_ProxyDict.__getitem__ key ;;; _ProxyDict.update key f) s)).
Proof.
  intros Hf Hwf. destruct (_proxy_dict s !! key) as [p|] eqn:Hp.
  - erewrite run_bind_return by (by apply run_getitem_Some).
    rewrite run_update. simpl. by apply wf_set_dict_alter.
  - by erewrite run_bind_raise by (by apply run_getitem_None).
Qed.

Lemma wf_put s p :
  is_Some (_proxy_dict s !! ProxyData.proxy_url p) ->
  wf s -> wf (snd (_ProxyQueue.put p s)).
Proof.
  intros Hp [Hk Hr Hn]. rewrite put_ok by done. split; simpl; [done| |].
  - apply Forall_forall. intros a [->|Ha]%spec_put_elem_of; [done|].
    by eapply Forall_forall in Hr.
  - by apply spec_put_NoDup.
Qed.

Lemma wf_add_proxy s proxy : wf s -> wf (snd (ProxyPool.add_proxy proxy s)).
Proof.
  intros [Hk Hr Hn]. unfold ProxyPool.add_proxy.
  erewrite run_bind_return by apply run_setitem.
  erewrite run_bind_return
    by (apply run_getitem_Some; simpl; apply lookup_insert_eq).
  apply wf_put; simpl.
  - rewrite lookup_insert_eq. by eexists.
  - split; simpl; [by apply map_Forall_insert_2|by apply queue_registered_insert|done].
Qed.

Lemma wf_return_proxy s proxy : wf s -> wf (snd (ProxyPool.return_proxy proxy s)).
Proof.
  intros Hwf. destruct (_proxy_dict s !! proxy) as [p|] eqn:Hp.
  - pose proof Hwf as [Hk Hr Hn].
    rewrite (return_proxy_run s proxy p Hp Hr). simpl.
    assert (Hwf1 : wf (set_proxy_dict
              (insert proxy (ProxyData.set_given_out_counter
                               (ProxyData.given_out_counter p - 1) p)) s)).
    { rewrite <- (set_proxy_dict_alter s proxy
                   (fun p => ProxyData.set_given_out_counter
                               (ProxyData.given_out_counter p - 1) p) p Hp).
      by apply wf_set_dict_alter. }
    case_decide; [|done].
    destruct Hwf1 as [Hk1 Hr1 Hn1]. split; simpl in *; [done| |by apply spec_put_NoDup].
    apply Forall_forall. intros a [->|Ha]%spec_put_elem_of.
    + rewrite (Hk proxy p Hp), lookup_insert_eq. by eexists.
    + by eapply Forall_forall in Hr1.
  - unfold ProxyPool.return_proxy.
    by erewrite run_bind_raise by (by apply run_getitem_None).
Qed.

Lemma deque_remove_Some item q q' :
  _ProxyQueue.deque_remove item q = Some q' ->
  NoDup q -> NoDup q' /\ (item ∉ q') /\ (forall x, x ∈ q' -> x ∈ q).
Proof.
  intros Hrem Hnd. pose proof (deque_remove_spec item q) as Hspec.
  rewrite Hrem in Hspec. simpl in Hspec. subst q'.
  split; [by apply spec_remove_NoDup|].
  split; [by apply spec_remove_NoDup_absent|].
  intros x. apply spec_remove_elem_of.
Qed.

Lemma run_pop_Some s key p :
  _proxy_dict s !! key = Some p ->
  _ProxyDict.pop key s = (Return p, set_proxy_dict (delete key) s).
Proof. unfold _ProxyDict.pop, bind, get. by intros ->. Qed.

Lemma run_queue_remove s item :
  _ProxyQueue.remove item s
  = match _ProxyQueue.deque_remove item (_proxy_queue s) with
    | Some q' => (Return tt, set_proxy_queue (fun _ => q') s)
    | None => (Raise ValueError, s)
    end.
Proof.
  unfold _ProxyQueue.remove, bind, get.
  by destruct (_ProxyQueue.deque_remove item (_proxy_queue s)).
Qed.

Lemma wf_remove_proxy s proxy : wf s -> wf (snd (ProxyPool.remove_proxy proxy s)).
Proof.
  intros [Hk Hr Hn].
  destruct (_proxy_dict s !! proxy) as [p|] eqn:Hp;
    [|by rewrite remove_proxy_unregistered].
  unfold ProxyPool.remove_proxy.
  erewrite run_bind_return by (by apply run_pop_Some).
  rewrite run_queue_remove. simpl.
  destruct (_ProxyQueue.deque_remove proxy (_proxy_queue s)) as [q'|] eqn:Hrem; simpl.
  - destruct (deque_remove_Some _ _ _ Hrem Hn) as (Hn' & Hnotin & Hsub).
    split; simpl; [by apply map_Forall_delete| |done].
    apply Forall_forall. intros a Ha. rewrite lookup_delete_ne by (intros ->; done).
    eapply Forall_forall in Hr; [done|by apply Hsub].
  - split; simpl; [by apply map_Forall_delete| |done].
    apply Forall_forall. intros a Ha.
    assert (a <> proxy).
    { intros ->. apply deque_remove_present in Ha as [? ?]. congruence. }
    rewrite lookup_delete_ne by done. by eapply Forall_forall in Hr.
Qed.
End WellFormed.

Section Reachable.
Variable f : option callback.

(** The callback is external; it is taken to hand back a well-formed
    pool when given one. *)
Hypothesis callback_wf :
  forall g n s, f = Some g -> wf s -> wf (snd (g n s)).

Lemma wf_set_replenish_calls n s : wf s -> wf (set_replenish_calls n s).
Proof. by intros []. Qed.

Lemma wf_get_proxy_try prev_proxy now s :
  wf s -> wf (snd (ProxyPool.get_proxy_try prev_proxy now s)).
Proof.
  intros Hwf. destruct (_proxy_queue s) as [|a q] eqn:Hq.
  { by rewrite get_proxy_try_nil. }
  pose proof Hwf as [Hk Hr Hn]. rewrite Hq in Hr, Hn.
  apply Forall_cons in Hr as [[p Hp] Hr]. apply NoDup_cons in Hn as [Ha Hn].
  assert (Hwf1 : wf (set_proxy_queue (fun _ => q) s)) by (by split).
  unfold ProxyPool.get_proxy_try.
  erewrite run_bind_return by (by apply run_popleft_cons).
  erewrite run_bind_return by (by apply run_getitem_Some).
  destruct (ProxyData.is_timeout now p).
  - unfold bind at 1.
    assert (Hput : wf (snd (_ProxyQueue.put p (set_proxy_queue (fun _ => q) s)))).
    { apply wf_put; [|done]. simpl. rewrite (Hk a p Hp), Hp. by eexists. }
    by destruct (_ProxyQueue.put p _) as [[[]|e] s2].
  - destruct prev_proxy as [prev|].
    + unfold bind at 1.
      pose proof (wf_return_proxy _ prev Hwf1) as Hret.
      destruct (ProxyPool.return_proxy prev _) as [[[]|e] s2]; [|done].
      erewrite run_bind_return by apply run_update. simpl in *.
      by apply wf_set_dict_alter.
    + erewrite run_bind_return by reflexivity.
      erewrite run_bind_return by apply run_update. simpl.
      by apply wf_set_dict_alter.
Qed.

Lemma wf_get_proxy prev_proxy _replenish now now' s :
  wf s -> wf (snd (ProxyPool.get_proxy f prev_proxy _replenish now now' s)).
Proof.
  intros Hwf. unfold ProxyPool.get_proxy.
  destruct (_proxy_queue s) as [|a q] eqn:Hq.
  - rewrite get_proxy_body_empty by done.
    destruct f as [g|] eqn:Hf, _replenish; try done.
    unfold bind, ProxyPool.replenish_proxies.
    pose proof (callback_wf g (replenish_calls s) s eq_refl Hwf) as Hg.
    destruct (g (replenish_calls s) s) as [[[]|e] s1]; simpl in *.
    + rewrite get_proxy_retry_run.
      destruct (_proxy_queue s1) eqn:Hq1; simpl; rewrite ?Hq1;
        [by apply wf_set_replenish_calls|].
      by apply wf_get_proxy_try, wf_set_replenish_calls.
    + by apply wf_set_replenish_calls.
  - pose proof (wf_get_proxy_try prev_proxy now s Hwf) as Htry.
    destruct (get_proxy_try_cons prev_proxy now s a q Hq) as [_ Hne].
    unfold ProxyPool.get_proxy_body, try_except.
    destruct (ProxyPool.get_proxy_try prev_proxy now s) as [[x|e] s1];
      simpl in *; [done|].
    by rewrite decide_False by congruence.
Qed.

(** X1: every pool reached from a pool built on a list without
    repetition, by any sequence of the operations of [op] (the public
    methods called with identifiers), is well formed: each registered
    state sits under its own [proxy_url], every queued identifier is
    registered, and no identifier is queued twice.  The callback, being
    external, is asked to preserve this itself.  The statement does not
    extend to [return_proxy] called with a [ProxyData] object: see
    [return_proxy_object_queues_unregistered]. *)
Lemma reachable_wf s : reachable f s -> wf s.
Proof.
  induction 1 as [l mt mu tu Hnd|o s _ IH]; [by apply wf_init|].
  destruct o; simpl.
  - by apply wf_add_proxy.
  - by apply wf_remove_proxy.
  - by apply wf_return_proxy.
  - by apply wf_get_proxy.
  - unfold ProxyPool.use_proxy.
    apply (wf_lookup_update s proxy
             (fun s0 => ProxyData.use now (time_out_on_use s0))); [|done].
    intros s0 p. unfold ProxyData.use. by case_bool_decide.
  - by apply wf_lookup_update_plain.
  - by apply wf_lookup_update_plain.
  - by apply wf_lookup_update_plain.
Qed.
End Reachable.

(** [return_proxy] called with an eligible [ProxyData] object whose
    identifier is not registered queues that identifier all the same:
    the pool it leaves has a queued identifier without a registry
    entry. *)
Lemma return_proxy_object_queues_unregistered s p :
  _proxy_dict s !! ProxyData.proxy_url p = None ->
  Spec.eligible s p ->
  queue_registered (_proxy_dict s) (_proxy_queue s) ->
  exists s',
    ProxyPool.return_proxy_object p s
    = (Return (ProxyData.set_given_out_counter
                 (ProxyData.given_out_counter p - 1) p), s')
    /\ _proxy_dict s' = _proxy_dict s
    /\ ProxyData.proxy_url p ∈ _proxy_queue s'
    /\ ~ queue_registered (_proxy_dict s') (_proxy_queue s').
Proof.
  intros Hnone Hel Hreg. unfold ProxyPool.return_proxy_object.
  unfold bind at 1, get at 1.
  rewrite (proj2 (proxy_valid_to_give_eligible s 0 _)) by done.
  eexists. split.
  { erewrite run_bind_return by (by apply put_ok). reflexivity. }
  simpl. split; [done|].
  assert (Hin : ProxyData.proxy_url p
                ∈ Spec.put (timeout_until (_proxy_dict s)) (ProxyData.timeout p)
                    (ProxyData.proxy_url p) (_proxy_queue s))
    by (apply spec_put_elem_of; by left).
  split; [done|]. intros Hreg'.
  eapply Forall_forall in Hreg'; [|exact Hin]. rewrite Hnone in Hreg'.
  by destruct Hreg'.
Qed.

(** * Further properties of the code *)

(** ** What [get_proxy] can raise *)

Lemma put_raises p s e s' :
  _ProxyQueue.put p s = (Raise e, s') -> exists a, e = UnknownProxy a.
Proof.
  unfold _ProxyQueue.put, bind, modify, get, raise. simpl.
  destruct (_ProxyQueue.put_scan _ _ _ _) as [[[|j]|]|e0] eqn:Hscan;
    try discriminate.
  intros [= <- _]. by eapply put_scan_raises.
Qed.

Lemma return_proxy_raises proxy s e s' :
  ProxyPool.return_proxy proxy s = (Raise e, s') -> exists a, e = UnknownProxy a.
Proof.
  destruct (_proxy_dict s !! proxy) as [p|] eqn:Hp.
  - unfold ProxyPool.return_proxy.
    erewrite run_bind_return by (by apply run_getitem_Some).
    erewrite run_bind_return by apply run_update.
    erewrite run_bind_return
      by (apply run_getitem_Some; simpl; rewrite lookup_alter_eq, Hp; done).
    unfold bind, get.
    destruct (ProxyPool.proxy_valid_to_give _ _ _ _); [apply put_raises|done].
  - unfold ProxyPool.return_proxy.
    erewrite run_bind_raise by (by apply run_getitem_None).
    intros [= <- _]. by eexists.
Qed.

(** The [try] block on a non-empty queue: it returns the front of the
    queue or raises [UnknownProxy] or [ProxiesTimeout]. *)
Lemma get_proxy_try_outcome prev_proxy now s a q :
  _proxy_queue s = a :: q ->
  match fst (ProxyPool.get_proxy_try prev_proxy now s) with
  | Return x => x = a
  | Raise e => lookup_or_cooldown e
  end.
Proof.
  intros Hq. unfold ProxyPool.get_proxy_try.
  erewrite run_bind_return by (by apply run_popleft_cons).
  destruct (_proxy_dict s !! a) as [p|] eqn:Hp.
  - erewrite run_bind_return by (by apply run_getitem_Some).
    destruct (ProxyData.is_timeout now p).
    + unfold bind.
      destruct (_ProxyQueue.put p _) as [[[]|e] s1] eqn:Hput; simpl; [done|].
      by apply put_raises in Hput as [x ->].
    + destruct prev_proxy as [prev|].
      * unfold bind at 1.
        destruct (ProxyPool.return_proxy prev _) as [[[]|e] s1] eqn:Hret.
        -- by erewrite run_bind_return by apply run_update.
        -- simpl. by apply return_proxy_raises in Hret as [x ->].
      * erewrite run_bind_return by reflexivity.
        by erewrite run_bind_return by apply run_update.
  - by erewrite run_bind_raise by (by apply run_getitem_None).
Qed.

(** X3: on a non-empty queue [get_proxy] never reaches its [IndexError]
    handler.  It does not invoke the callback, it cannot raise
    [NoValidProxies], and what it returns is the identifier that was at
    the front of the queue. *)
Theorem get_proxy_nonempty_outcome f prev_proxy _replenish now now' s a q :
  _proxy_queue s = a :: q ->
  replenish_calls (snd (ProxyPool.get_proxy f prev_proxy _replenish now now' s))
  = replenish_calls s
  /\ match fst (ProxyPool.get_proxy f prev_proxy _replenish now now' s) with
     | Return x => x = a
     | Raise e => lookup_or_cooldown e
     end.
Proof.
  intros Hq.
  destruct (get_proxy_try_cons prev_proxy now s a q Hq) as [Hc Hne].
  pose proof (get_proxy_try_outcome prev_proxy now s a q Hq) as Hout.
  unfold ProxyPool.get_proxy, ProxyPool.get_proxy_body, try_except.
  destruct (ProxyPool.get_proxy_try prev_proxy now s) as [[x|e] s1];
    simpl in *; [done|].
  rewrite decide_False by congruence. done.
Qed.

Lemma get_proxy_nonempty_outcome_witness :
  replenish_calls
    (snd (ProxyPool.get_proxy (Some replenish_c) (Some "b") true 1 2 pool_ab))
  = replenish_calls pool_ab
  /\ match fst (ProxyPool.get_proxy (Some replenish_c) (Some "b") true 1 2 pool_ab) with
     | Return x => x = "a"
     | Raise e => lookup_or_cooldown e
     end.
Proof.
  apply (get_proxy_nonempty_outcome (Some replenish_c) (Some "b") true 1 2
           pool_ab "a" ["b"]).
  reflexivity.
Defined.


(** ** Unknown identifiers *)

(** X4: every method that resolves an identifier through
    [self._proxy_dict[...]] raises [UnknownProxy] for an unregistered
    one and leaves the pool exactly as it was. *)
Theorem unregistered_raises_UnknownProxy s proxy now time_sec ignore_timeout :
  _proxy_dict s !! proxy = None ->
  ProxyPool.__getitem__ proxy s = (Raise (UnknownProxy proxy), s)
  /\ ProxyPool.return_proxy proxy s = (Raise (UnknownProxy proxy), s)
  /\ ProxyPool.use_proxy now proxy s = (Raise (UnknownProxy proxy), s)
  /\ ProxyPool.timeout_proxy now proxy time_sec s = (Raise (UnknownProxy proxy), s)
  /\ ProxyPool.ban_proxy proxy s = (Raise (UnknownProxy proxy), s)
  /\ ProxyPool.unban_proxy proxy s = (Raise (UnknownProxy proxy), s)
  /\ ProxyPool.proxy_valid_to_give_str now proxy ignore_timeout s
     = (Raise (UnknownProxy proxy), s)
  /\ ProxyPool.proxy_valid_to_use_str now proxy s = (Raise (UnknownProxy proxy), s)
  /\ Proxy.__del__ (Proxy.mk proxy) s = (Raise (UnknownProxy proxy), s).
Proof.
  intros Hnone. pose proof (run_getitem_None s proxy Hnone) as Hget.
  unfold ProxyPool.__getitem__, ProxyPool.return_proxy, ProxyPool.use_proxy,
    ProxyPool.timeout_proxy, ProxyPool.ban_proxy, ProxyPool.unban_proxy,
    ProxyPool.proxy_valid_to_give_str, ProxyPool.proxy_valid_to_use_str,
    Proxy.__del__, ProxyPool.return_proxy. simpl.
  repeat split; try done; by erewrite run_bind_raise by exact Hget.
Qed.

Lemma unregistered_raises_UnknownProxy_witness :
  ProxyPool.__getitem__ "x" pool_ab = (Raise (UnknownProxy "x"), pool_ab)
  /\ ProxyPool.return_proxy "x" pool_ab = (Raise (UnknownProxy "x"), pool_ab)
  /\ ProxyPool.use_proxy 1 "x" pool_ab = (Raise (UnknownProxy "x"), pool_ab)
  /\ ProxyPool.timeout_proxy 1 "x" 5 pool_ab = (Raise (UnknownProxy "x"), pool_ab)
  /\ ProxyPool.ban_proxy "x" pool_ab = (Raise (UnknownProxy "x"), pool_ab)
  /\ ProxyPool.unban_proxy "x" pool_ab = (Raise (UnknownProxy "x"), pool_ab)
  /\ ProxyPool.proxy_valid_to_give_str 1 "x" false pool_ab
     = (Raise (UnknownProxy "x"), pool_ab)
  /\ ProxyPool.proxy_valid_to_use_str 1 "x" pool_ab = (Raise (UnknownProxy "x"), pool_ab)
  /\ Proxy.__del__ (Proxy.mk "x") pool_ab = (Raise (UnknownProxy "x"), pool_ab).
Proof.
  apply (unregistered_raises_UnknownProxy pool_ab "x" 1 5 false). reflexivity.
Defined.

(** X5: [get_proxy] pops before it returns the previous endpoint.  When
    [prev_proxy] is not registered, the call raises [UnknownProxy] for
    it after the front endpoint has left the queue: that endpoint is
    neither handed out (its [given_out_counter] is unchanged, like the
    whole registry) nor put back. *)
Theorem get_proxy_unknown_prev_drops_front
    f _replenish now now' s a q p prev :
  _proxy_queue s = a :: q ->
  _proxy_dict s !! a = Some p ->
  ProxyData.timeout p <= now ->
  _proxy_dict s !! prev = None ->
  ProxyPool.get_proxy f (Some prev) _replenish now now' s
  = (Raise (UnknownProxy prev), set_proxy_queue (fun _ => q) s).
Proof.
  intros Hq Ha Hnow Hprev. unfold ProxyPool.get_proxy, ProxyPool.get_proxy_body.
  apply run_try_except_other; [|done]. unfold ProxyPool.get_proxy_try.
  erewrite run_bind_return by (by apply run_popleft_cons).
  erewrite run_bind_return by (by apply run_getitem_Some).
  unfold ProxyData.is_timeout. rewrite bool_decide_eq_false_2 by lia.
  apply run_bind_raise. unfold ProxyPool.return_proxy.
  by erewrite run_bind_raise by (by apply run_getitem_None).
Qed.

Lemma get_proxy_unknown_prev_drops_front_witness :
  ProxyPool.get_proxy None (Some "x") true 1 2 pool_ab
  = (Raise (UnknownProxy "x"), set_proxy_queue (fun _ => ["b"]) pool_ab).
Proof.
  apply (get_proxy_unknown_prev_drops_front None true 1 2 pool_ab "a" ["b"]
           (ProxyData.__init__ "a") "x").
  - reflexivity.
  - reflexivity.
  - simpl. lia.
  - reflexivity.
Defined.

(** ** [remove_proxy] *)

(** [remove_proxy] in one equation. *)
Lemma remove_proxy_run s proxy :
  ProxyPool.remove_proxy proxy s
  = match _proxy_dict s !! proxy with
    | None => (Raise (KeyError proxy), s)
    | Some _ =>
        if decide (proxy ∈ _proxy_queue s)
        then (Return tt,
              set_proxy_queue (Spec.remove proxy)
                (set_proxy_dict (delete proxy) s))
        else (Raise ValueError, set_proxy_dict (delete proxy) s)
    end.
Proof.
  destruct (_proxy_dict s !! proxy) as [p|] eqn:Hp;
    [|by apply remove_proxy_unregistered].
  unfold ProxyPool.remove_proxy.
  erewrite run_bind_return by (by apply run_pop_Some).
  rewrite run_queue_remove. simpl.
  pose proof (deque_remove_spec proxy (_proxy_queue s)) as Hspec.
  destruct (decide (proxy ∈ _proxy_queue s)) as [Hin|Hnin].
  - destruct (deque_remove_present _ _ Hin) as [q' Hq']. rewrite Hq' in *.
    simpl in Hspec. by subst q'.
  - by rewrite deque_remove_absent.
Qed.

(** X6: the three outcomes of [remove_proxy].  An unregistered identifier
    gives [KeyError] and no change.  A registered identifier is deleted
    from the registry in every case; if it is queued its first
    occurrence leaves the queue and the call returns, and if it is not
    queued the call raises [ValueError] after the deletion. *)
Theorem remove_proxy_outcomes s proxy :
  (_proxy_dict s !! proxy = None ->
   ProxyPool.remove_proxy proxy s = (Raise (KeyError proxy), s))
  /\ (is_Some (_proxy_dict s !! proxy) -> proxy ∈ _proxy_queue s ->
      ProxyPool.remove_proxy proxy s
      = (Return tt,
         set_proxy_queue (Spec.remove proxy) (set_proxy_dict (delete proxy) s)))
  /\ (is_Some (_proxy_dict s !! proxy) -> proxy ∉ _proxy_queue s ->
      ProxyPool.remove_proxy proxy s
      = (Raise ValueError, set_proxy_dict (delete proxy) s)).
Proof.
  rewrite remove_proxy_run. split; [by intros ->|]. split.
  - intros [p ->] Hin. by rewrite decide_True.
  - intros [p ->] Hnin. by rewrite decide_False.
Qed.

Lemma wf_pool_ab : wf pool_ab.
Proof. apply wf_init. compute_done. Qed.

(** X7: in a well-formed pool a successful [remove_proxy] forgets the
    identifier altogether: it is no longer registered, no longer
    queued, and the pool is still well formed. *)
Theorem remove_proxy_forgets s proxy :
  wf s ->
  is_Some (_proxy_dict s !! proxy) ->
  proxy ∈ _proxy_queue s ->
  exists s',
    ProxyPool.remove_proxy proxy s = (Return tt, s')
    /\ _proxy_dict s' !! proxy = None
    /\ (proxy ∉ _proxy_queue s')
    /\ (forall a, a <> proxy ->
        _proxy_dict s' !! a = _proxy_dict s !! a
        /\ (a ∈ _proxy_queue s' <-> a ∈ _proxy_queue s))
    /\ wf s'.
Proof.
  intros Hwf [p Hp] Hin. eexists. split.
  { rewrite remove_proxy_run, Hp. by rewrite decide_True. }
  simpl. split; [apply lookup_delete_eq|].
  split; [apply spec_remove_NoDup_absent, Hwf|].
  split.
  - intros a Hne. split; [by apply lookup_delete_ne|]. split.
    + apply spec_remove_elem_of.
    + by apply spec_remove_elem_of_ne.
  - pose proof (wf_remove_proxy s proxy Hwf) as Hwf'.
    rewrite remove_proxy_run, Hp in Hwf'. by rewrite decide_True in Hwf'.
Qed.

Lemma remove_proxy_forgets_witness :
  exists s',
    ProxyPool.remove_proxy "a" pool_ab = (Return tt, s')
    /\ _proxy_dict s' !! "a" = None
    /\ ("a" ∉ _proxy_queue s')
    /\ (forall a, a <> "a" ->
        _proxy_dict s' !! a = _proxy_dict pool_ab !! a
        /\ (a ∈ _proxy_queue s' <-> a ∈ _proxy_queue pool_ab))
    /\ wf s'.
Proof.
  apply (remove_proxy_forgets pool_ab "a").
  - apply wf_pool_ab.
  - by eexists.
  - apply elem_of_cons. by left.
Defined.


(** ** Where a [put] lands, and what comes out next *)

Lemma spec_insert_front tu t id q :
  (forall b, b ∈ q -> t <= tu b) -> Spec.insert tu t id q = id :: q.
Proof.
  destruct q as [|a q]; simpl; [done|]. intros Hall.
  rewrite bool_decide_eq_true_2; [done|]. apply Hall, elem_of_cons. by left.
Qed.

Lemma spec_remove_insert tu t id q :
  id ∉ q -> Spec.remove id (Spec.insert tu t id q) = q.
Proof.
  induction q as [|a q IH]; simpl; intros Hn.
  - by rewrite decide_True.
  - apply not_elem_of_cons in Hn as [Hne Hn]. case_bool_decide; simpl.
    + by rewrite decide_True.
    + rewrite decide_False by done. by rewrite IH.
Qed.

Lemma pool_eta s :
  mkPool (max_time_outs s) (max_uses s) (time_out_on_use s)
         (_proxy_dict s) (_proxy_queue s) (replenish_calls s) = s.
Proof. by destruct s. Qed.

(** X8: [add_proxy] followed by [remove_proxy] of an identifier that was
    neither registered nor queued gives back the pool one started
    from. *)
Theorem add_remove_roundtrip s proxy :
  _proxy_dict s !! proxy = None ->
  proxy ∉ _proxy_queue s ->
  queue_registered (_proxy_dict s) (_proxy_queue s) ->
  (ProxyPool.add_proxy proxy ;;; ProxyPool.remove_proxy proxy) s = (Return tt, s).
Proof.
  intros Hnone Hnin Hreg.
  erewrite run_bind_return by (by apply add_proxy_run).
  rewrite remove_proxy_run. simpl. rewrite lookup_insert_eq.
  rewrite decide_True by (apply spec_put_elem_of; by left).
  f_equal. unfold set_proxy_queue, set_proxy_dict, Spec.put. simpl.
  rewrite (spec_remove_absent _ _ Hnin), (spec_remove_insert _ _ _ _ Hnin).
  rewrite delete_insert_id by done. apply pool_eta.
Qed.

Lemma add_remove_roundtrip_witness :
  (ProxyPool.add_proxy "x" ;;; ProxyPool.remove_proxy "x") pool_a_cooling
  = (Return tt, pool_a_cooling).
Proof.
  apply (add_remove_roundtrip pool_a_cooling "x").
  - reflexivity.
  - vm_compute. intros Hin. repeat (apply elem_of_cons in Hin as [Hin|Hin]; [discriminate|]).
    by apply elem_of_nil in Hin.
  - vm_compute. repeat constructor; by eexists.
Defined.

(** X9: in a pool whose queued identifiers are all registered, a
    freshly added endpoint is the next one handed out.  [add_proxy]
    stores a state with [timeout = 0], so as long as no queued endpoint
    has a negative expiry the new identifier goes to the front of the
    queue, and a [get_proxy] at a clock reading [now >= 0] returns it. *)
Theorem add_proxy_then_get_proxy f _replenish now now' s proxy :
  queue_registered (_proxy_dict s) (_proxy_queue s) ->
  (forall b, b ∈ _proxy_queue s -> 0 <= timeout_until (_proxy_dict s) b) ->
  0 <= now ->
  exists s1 s2,
    ProxyPool.add_proxy proxy s = (Return tt, s1)
    /\ _proxy_queue s1 = proxy :: Spec.remove proxy (_proxy_queue s)
    /\ ProxyPool.get_proxy f None _replenish now now' s1 = (Return proxy, s2)
    /\ _proxy_queue s2 = Spec.remove proxy (_proxy_queue s)
    /\ ProxyData.given_out_counter <$> _proxy_dict s2 !! proxy = Some 1.
Proof.
  intros Hreg Hpos Hnow.
  assert (Hq1 : Spec.put (timeout_until (<[proxy := ProxyData.__init__ proxy]> (_proxy_dict s)))
                  0 proxy (_proxy_queue s)
                = proxy :: Spec.remove proxy (_proxy_queue s)).
  { unfold Spec.put. apply spec_insert_front. intros b Hb.
    unfold timeout_until. rewrite lookup_insert. case_decide; [done|].
    apply Hpos. by eapply spec_remove_elem_of. }
  eexists _, _. split; [by apply add_proxy_run|]. split; [done|].
  split.
  { eapply get_proxy_gives_front; simpl.
    - exact Hq1.
    - apply lookup_insert_eq.
    - done. }
  simpl. split; [done|]. by rewrite lookup_alter_eq, lookup_insert_eq.
Qed.

Lemma add_proxy_then_get_proxy_witness :
  exists s1 s2,
    ProxyPool.add_proxy "x" pool_a_cooling = (Return tt, s1)
    /\ _proxy_queue s1 = "x" :: Spec.remove "x" (_proxy_queue pool_a_cooling)
    /\ ProxyPool.get_proxy None None true 11 12 s1 = (Return "x", s2)
    /\ _proxy_queue s2 = Spec.remove "x" (_proxy_queue pool_a_cooling)
    /\ ProxyData.given_out_counter <$> _proxy_dict s2 !! "x" = Some 1.
Proof.
  apply (add_proxy_then_get_proxy None true 11 12 pool_a_cooling "x").
  - vm_compute. repeat constructor; by eexists.
  - intros b Hb. vm_compute in Hb.
    repeat (apply elem_of_cons in Hb as [->|Hb]; [by vm_compute|]).
    by apply elem_of_nil in Hb.
  - lia.
Defined.


(** ** Acquire and release *)

Lemma given_out_incr_decr p :
  ProxyData.set_given_out_counter
    (ProxyData.given_out_counter
       (ProxyData.set_given_out_counter (ProxyData.given_out_counter p + 1) p) - 1)
    (ProxyData.set_given_out_counter (ProxyData.given_out_counter p + 1) p) = p.
Proof. destruct p. unfold ProxyData.set_given_out_counter. simpl. f_equal. lia. Qed.

Lemma given_out_decr_incr p :
  ProxyData.set_given_out_counter
    (ProxyData.given_out_counter
       (ProxyData.set_given_out_counter (ProxyData.given_out_counter p - 1) p) + 1)
    (ProxyData.set_given_out_counter (ProxyData.given_out_counter p - 1) p) = p.
Proof. destruct p. unfold ProxyData.set_given_out_counter. simpl. f_equal. lia. Qed.

(** X10: a handle obtained from the pool and then dropped leaves the
    registry as it was.  When the front endpoint is registered under
    its own [proxy_url], out of cooldown, eligible and queued once, and
    the identifiers queued behind it are all registered, [pool.Proxy()]
    followed by the handle's [__del__] returns normally, every counter
    is back at its old value, and the endpoint is queued again among
    the same identifiers, at the place its expiry gives it. *)
Theorem handle_acquire_release_roundtrip f now now' s a q p :
  _proxy_queue s = a :: q ->
  _proxy_dict s !! a = Some p ->
  ProxyData.proxy_url p = a ->
  ProxyData.timeout p <= now ->
  Spec.eligible s p ->
  queue_registered (_proxy_dict s) q ->
  a ∉ q ->
  exists s',
    (h <- ProxyPool_Proxy f None now now' ;; Proxy.__del__ h) s = (Return tt, s')
    /\ _proxy_dict s' = _proxy_dict s
    /\ _proxy_queue s'
       = Spec.insert (timeout_until (_proxy_dict s)) (ProxyData.timeout p) a q
    /\ _proxy_queue s' ≡ₚ _proxy_queue s
    /\ replenish_calls s' = replenish_calls s.
Proof.
  intros Hq Ha Hurl Hnow Hel Hreg Hnin.
  set (incr := fun p => ProxyData.set_given_out_counter
                          (ProxyData.given_out_counter p + 1) p).
  set (s1 := set_proxy_dict (alter incr a) (set_proxy_queue (fun _ => q) s)).
  assert (Hget : ProxyPool_Proxy f None now now' s = (Return (Proxy.mk a), s1)).
  { unfold ProxyPool_Proxy, Proxy.__init__.
    erewrite run_bind_return by reflexivity.
    by erewrite run_bind_return by (by eapply get_proxy_gives_front). }
  assert (Ha1 : _proxy_dict s1 !! a = Some (incr p))
    by (simpl; by rewrite lookup_alter_eq, Ha).
  assert (Hreg1 : queue_registered (_proxy_dict s1) (_proxy_queue s1))
    by (by apply queue_registered_alter).
  pose proof (return_proxy_run s1 a (incr p) Ha1 Hreg1) as Hret.
  cbv zeta in Hret.
  assert (Hid : ProxyData.set_given_out_counter
                  (ProxyData.given_out_counter (incr p) - 1) (incr p) = p)
    by apply given_out_incr_decr.
  rewrite Hid in Hret. rewrite decide_True in Hret by done.
  eexists. split.
  { erewrite run_bind_return by exact Hget. unfold Proxy.__del__. simpl.
    exact Hret. }
  simpl.
  assert (Hdict : <[a := p]> (alter incr a (_proxy_dict s)) = _proxy_dict s).
  { apply map_eq. intros k. rewrite lookup_insert. case_decide; [by subst|].
    by rewrite lookup_alter_ne. }
  assert (Hqueue : Spec.put (timeout_until (alter incr a (_proxy_dict s)))
                     (ProxyData.timeout p) (ProxyData.proxy_url p) q
                   = Spec.insert (timeout_until (_proxy_dict s)) (ProxyData.timeout p) a q).
  { rewrite Hurl. unfold Spec.put. rewrite (spec_remove_absent _ _ Hnin).
    apply spec_insert_ext. intros b. unfold timeout_until.
    rewrite lookup_alter. case_decide; [subst; by rewrite Ha|done]. }
  split; [done|]. split; [done|]. split; [|done].
  rewrite Hqueue, Hq. apply spec_insert_Permutation.
Qed.

Lemma handle_acquire_release_roundtrip_witness :
  exists s',
    (h <- ProxyPool_Proxy None None 1 2 ;; Proxy.__del__ h) pool_ab = (Return tt, s')
    /\ _proxy_dict s' = _proxy_dict pool_ab
    /\ _proxy_queue s'
       = Spec.insert (timeout_until (_proxy_dict pool_ab))
                     (ProxyData.timeout (ProxyData.__init__ "a")) "a" ["b"]
    /\ _proxy_queue s' ≡ₚ _proxy_queue pool_ab
    /\ replenish_calls s' = replenish_calls pool_ab.
Proof.
  apply (handle_acquire_release_roundtrip None 1 2 pool_ab "a" ["b"]
           (ProxyData.__init__ "a")).
  - reflexivity.
  - reflexivity.
  - reflexivity.
  - simpl. lia.
  - split; [reflexivity|split; simpl; lia].
  - vm_compute. repeat constructor; by eexists.
  - intros Hin. apply elem_of_cons in Hin as [Hin|Hin]; [discriminate|].
    by apply elem_of_nil in Hin.
Defined.

(** X11: the endpoint just released is the one handed out next.  In a
    pool whose queued identifiers are all registered, when the released
    endpoint is registered under its own [proxy_url], eligible, out of
    cooldown, and no queued endpoint expires before it, [return_proxy]
    puts it at the front of the queue and the following [get_proxy]
    returns the same identifier; the registry ends as it started. *)
Theorem return_proxy_then_get_proxy f _replenish now now' s proxy p :
  _proxy_dict s !! proxy = Some p ->
  ProxyData.proxy_url p = proxy ->
  Spec.eligible s p ->
  ProxyData.timeout p <= now ->
  queue_registered (_proxy_dict s) (_proxy_queue s) ->
  (forall b, b ∈ _proxy_queue s ->
             ProxyData.timeout p <= timeout_until (_proxy_dict s) b) ->
  exists s',
    (ProxyPool.return_proxy proxy ;;;
     ProxyPool.get_proxy f None _replenish now now') s = (Return proxy, s')
    /\ _proxy_dict s' = _proxy_dict s
    /\ _proxy_queue s' = Spec.remove proxy (_proxy_queue s).
Proof.
  intros Hp Hurl Hel Hnow Hreg Hall.
  set (decr := fun p => ProxyData.set_given_out_counter
                          (ProxyData.given_out_counter p - 1) p).
  pose proof (return_proxy_run s proxy p Hp Hreg) as Hret. simpl in Hret.
  rewrite decide_True in Hret by done.
  assert (Hfront : Spec.put (timeout_until (_proxy_dict s)) (ProxyData.timeout p)
                     (ProxyData.proxy_url p) (_proxy_queue s)
                   = proxy :: Spec.remove proxy (_proxy_queue s)).
  { rewrite Hurl. unfold Spec.put. apply spec_insert_front.
    intros b Hb. apply Hall. by eapply spec_remove_elem_of. }
  eexists. split.
  { erewrite run_bind_return by exact Hret.
    eapply get_proxy_gives_front; simpl.
    - exact Hfront.
    - apply lookup_insert_eq.
    - done. }
  simpl. split; [|done].
  apply map_eq. intros k. destruct (decide (k = proxy)) as [->|Hne].
  - rewrite lookup_alter_eq, lookup_insert_eq, Hp.
    cbn [fmap option_fmap option_map]. f_equal. apply given_out_decr_incr.
  - by rewrite lookup_alter_ne, lookup_insert_ne.
Qed.

Lemma return_proxy_then_get_proxy_witness :
  exists s',
    (ProxyPool.return_proxy "b" ;;;
     ProxyPool.get_proxy None None true 11 12) pool_a_cooling = (Return "b", s')
    /\ _proxy_dict s' = _proxy_dict pool_a_cooling
    /\ _proxy_queue s' = Spec.remove "b" (_proxy_queue pool_a_cooling).
Proof.
  apply (return_proxy_then_get_proxy None true 11 12 pool_a_cooling "b"
           (ProxyData.__init__ "b")).
  - reflexivity.
  - reflexivity.
  - split; [reflexivity|split; simpl; lia].
  - simpl. lia.
  - vm_compute. repeat constructor; by eexists.
  - intros b Hb. vm_compute in Hb.
    repeat (apply elem_of_cons in Hb as [->|Hb]; [by vm_compute|]).
    by apply elem_of_nil in Hb.
Defined.


(** ** [add_proxies] *)

(** X12: on a well-formed pool [add_proxies] returns normally and keeps
    the pool well formed.  Every listed identifier ends up registered
    with a fresh state and queued; every other identifier keeps its
    registered state and its membership in the queue. *)
Theorem add_proxies_registers_all proxy_list : forall s,
  wf s ->
  exists s',
    ProxyPool.add_proxies proxy_list s = (Return tt, s')
    /\ wf s'
    /\ (forall a, a ∈ proxy_list ->
        _proxy_dict s' !! a = Some (ProxyData.__init__ a)
        /\ a ∈ _proxy_queue s')
    /\ (forall a, a ∉ proxy_list ->
        _proxy_dict s' !! a = _proxy_dict s !! a
        /\ (a ∈ _proxy_queue s' <-> a ∈ _proxy_queue s)).
Proof.
  induction proxy_list as [|x l IH]; intros s Hwf; simpl.
  - exists s. split; [done|]. split; [done|]. split; [|done].
    intros a Ha. by apply elem_of_nil in Ha.
  - pose proof (wf_add_proxy s x Hwf) as Hwf1.
    pose proof (add_proxy_run s x (wf_registered s Hwf)) as Hadd.
    rewrite Hadd in Hwf1. simpl in Hwf1.
    destruct (IH _ Hwf1) as (s' & Hrun & Hwf' & Hin & Hout).
    exists s'. split; [by erewrite run_bind_return by exact Hadd|].
    split; [done|]. split.
    + intros a Ha. destruct (decide (a ∈ l)) as [Hl|Hl]; [by apply Hin|].
      apply elem_of_cons in Ha as [->|Ha]; [|done].
      destruct (Hout x Hl) as [Hd Hq]. simpl in Hd, Hq. split.
      * by rewrite Hd, lookup_insert_eq.
      * apply Hq, spec_put_elem_of. by left.
    + intros a Ha. apply not_elem_of_cons in Ha as [Hne Ha].
      destruct (Hout a Ha) as [Hd Hq]. simpl in Hd, Hq. split.
      * by rewrite Hd, lookup_insert_ne.
      * rewrite Hq, spec_put_elem_of. split; [by intros [?|?]|by right].
Qed.

Lemma add_proxies_registers_all_witness :
  exists s',
    ProxyPool.add_proxies ["c"; "a"] pool_ab = (Return tt, s')
    /\ wf s'
    /\ (forall a, a ∈ ["c"; "a"] ->
        _proxy_dict s' !! a = Some (ProxyData.__init__ a)
        /\ a ∈ _proxy_queue s')
    /\ (forall a, a ∉ ["c"; "a"] ->
        _proxy_dict s' !! a = _proxy_dict pool_ab !! a
        /\ (a ∈ _proxy_queue s' <-> a ∈ _proxy_queue pool_ab)).
Proof.
  apply (add_proxies_registers_all ["c"; "a"] pool_ab). apply wf_pool_ab.
Defined.

(** ** The order of the queue *)

Lemma spec_remove_sorted tu id q :
  StronglySorted (fun a b => tu a <= tu b) q ->
  StronglySorted (fun a b => tu a <= tu b) (Spec.remove id q).
Proof.
  induction q as [|a q IH]; simpl; [done|].
  rewrite StronglySorted_cons. intros [Hall Hq].
  destruct (decide (a = id)); [done|].
  apply StronglySorted_cons. split; [|by apply IH].
  apply Forall_forall. intros b Hb. eapply Forall_forall in Hall; [done|].
  by eapply spec_remove_elem_of.
Qed.

Lemma spec_insert_sorted tu t id q :
  tu id = t ->
  StronglySorted (fun a b => tu a <= tu b) q ->
  StronglySorted (fun a b => tu a <= tu b) (Spec.insert tu t id q).
Proof.
  intros Hid. induction q as [|a q IH]; simpl.
  - intros _. apply StronglySorted_cons. by split; [apply Forall_nil|constructor].
  - rewrite StronglySorted_cons. intros [Hall Hq]. case_bool_decide as Hle.
    + apply StronglySorted_cons. split; [|by apply StronglySorted_cons].
      apply Forall_cons. split; [lia|].
      eapply Forall_impl; [exact Hall|]. simpl. intros b Hb. lia.
    + apply StronglySorted_cons. split; [|by apply IH].
      apply Forall_forall. intros b [->|Hb]%spec_insert_elem_of; [lia|].
      by eapply Forall_forall in Hall.
Qed.

(** X13: [put] keeps the queue in ascending order of expiry.  If the
    queue is sorted by the expiry the registry records and the endpoint
    being put is the one registered under its identifier, the queue is
    sorted after the [put] as well. *)
Theorem put_keeps_sorted s p :
  queue_registered (_proxy_dict s) (_proxy_queue s) ->
  _proxy_dict s !! ProxyData.proxy_url p = Some p ->
  queue_sorted (_proxy_dict s) (_proxy_queue s) ->
  exists s',
    _ProxyQueue.put p s = (Return tt, s')
    /\ _proxy_dict s' = _proxy_dict s
    /\ queue_sorted (_proxy_dict s') (_proxy_queue s').
Proof.
  intros Hreg Hp Hsorted. eexists. split; [by apply put_ok|].
  simpl. split; [done|]. unfold queue_sorted, Spec.put.
  apply spec_insert_sorted; [by apply timeout_until_lookup|].
  by apply spec_remove_sorted.
Qed.

Lemma put_keeps_sorted_witness :
  exists s',
    _ProxyQueue.put (ProxyData.mk "a" 15 false 1 1 0) pool_a_late = (Return tt, s')
    /\ _proxy_dict s' = _proxy_dict pool_a_late
    /\ queue_sorted (_proxy_dict s') (_proxy_queue s').
Proof.
  apply (put_keeps_sorted pool_a_late (ProxyData.mk "a" 15 false 1 1 0)).
  - vm_compute. repeat constructor; by eexists.
  - reflexivity.
  - unfold queue_sorted. repeat constructor; by vm_compute.
Defined.

(** X14: in a sorted queue a cooling front means that everything queued
    is cooling.  When [get_proxy] raises [ProxiesTimeout t] on a pool
    whose queue is sorted, [t] is the earliest expiry in the queue and
    no queued endpoint is out of cooldown at [now]. *)
Theorem cooldown_front_all_cooling f prev_proxy _replenish now now' s a q p :
  _proxy_queue s = a :: q ->
  _proxy_dict s !! a = Some p ->
  now < ProxyData.timeout p ->
  queue_registered (_proxy_dict s) q ->
  queue_sorted (_proxy_dict s) (_proxy_queue s) ->
  fst (ProxyPool.get_proxy f prev_proxy _replenish now now' s)
  = Raise (ProxiesTimeout (ProxyData.timeout p))
  /\ forall b, b ∈ _proxy_queue s ->
       ProxyData.timeout p <= timeout_until (_proxy_dict s) b
       /\ now < timeout_until (_proxy_dict s) b.
Proof.
  intros Hq Ha Hnow Hreg Hsorted. split.
  - unfold ProxyPool.get_proxy, ProxyPool.get_proxy_body.
    by rewrite (run_try_except_other _ _ _ _ _ _
                  (get_proxy_try_cooldown _ _ _ _ _ _ Hq Ha Hnow Hreg)).
  - unfold queue_sorted in Hsorted. rewrite Hq in *.
    apply StronglySorted_cons in Hsorted as [Hall _].
    intros b Hb. rewrite <- (timeout_until_lookup _ _ _ Ha).
    apply elem_of_cons in Hb as [->|Hb].
    + rewrite (timeout_until_lookup _ _ _ Ha). lia.
    + eapply Forall_forall in Hall; [|done].
      rewrite (timeout_until_lookup _ _ _ Ha) in *. lia.
Qed.

Lemma cooldown_front_all_cooling_witness :
  fst (ProxyPool.get_proxy None None true 3 4 pool_all_cooling)
  = Raise (ProxiesTimeout (ProxyData.timeout (ProxyData.mk "b" 8 false 0 1 0)))
  /\ forall b, b ∈ _proxy_queue pool_all_cooling ->
       ProxyData.timeout (ProxyData.mk "b" 8 false 0 1 0)
       <= timeout_until (_proxy_dict pool_all_cooling) b
       /\ 3 < timeout_until (_proxy_dict pool_all_cooling) b.
Proof.
  apply (cooldown_front_all_cooling None None true 3 4 pool_all_cooling
           "b" ["a"] (ProxyData.mk "b" 8 false 0 1 0)).
  - reflexivity.
  - reflexivity.
  - simpl. lia.
  - vm_compute. repeat constructor; by eexists.
  - unfold queue_sorted. repeat constructor; by vm_compute.
Defined.


(** ** The validity checks *)

(** X15: [proxy_valid_to_use] and [proxy_valid_to_give] with the cooldown
    enforced are the same check; it holds exactly for the endpoints that
    are eligible and whose expiry lies strictly before the clock
    reading, and it implies the check with the cooldown ignored. *)
Theorem validity_checks_agree s now p :
  ProxyPool.proxy_valid_to_use s now p = ProxyPool.proxy_valid_to_give s now p false
  /\ (ProxyPool.proxy_valid_to_give s now p false = true
      <-> Spec.eligible s p /\ ProxyData.timeout p < now)
  /\ (ProxyPool.proxy_valid_to_give s now p false = true ->
      ProxyPool.proxy_valid_to_give s now p true = true).
Proof.
  assert (Hiff : ProxyPool.proxy_valid_to_give s now p false = true
                 <-> Spec.eligible s p /\ ProxyData.timeout p < now).
  { unfold ProxyPool.proxy_valid_to_give, ProxyData.is_valid, Spec.eligible.
    rewrite !andb_true_iff, !orb_true_iff, !bool_decide_eq_true, negb_true_iff.
    split.
    - intros [[Ht Hu] [Hb [Hf|Hlt]]]; [done|]. repeat split; [done|lia|lia|done].
    - intros [(Hb & Hu & Ht) Hlt]. repeat split; [| |done|by right].
      + destruct (decide (max_time_outs s <= 0)); [by left|right; lia].
      + destruct (decide (max_uses s <= 0)); [by left|right; lia]. }
  split; [|split; [done|]].
  - unfold ProxyPool.proxy_valid_to_use, ProxyPool.proxy_valid_to_give.
    f_equal. apply andb_comm.
  - intros [He _]%Hiff. by apply proxy_valid_to_give_eligible.
Qed.

(** X16: the two cooldown tests leave one instant uncovered.  At the
    clock reading equal to the endpoint's [timeout], [get_proxy] no
    longer sees a cooldown ([is_timeout] is strict) and hands the
    endpoint out, while [proxy_valid_to_use] (strict the other way)
    still answers false for it at that same reading. *)
Theorem get_proxy_at_expiry f _replenish now now' s a q p :
  _proxy_queue s = a :: q ->
  _proxy_dict s !! a = Some p ->
  ProxyData.timeout p = now ->
  exists s',
    ProxyPool.get_proxy f None _replenish now now' s = (Return a, s')
    /\ ProxyPool.proxy_valid_to_use_str now a s' = (Return false, s').
Proof.
  intros Hq Ha Hnow. eexists. split.
  { eapply get_proxy_gives_front; [done|done|lia]. }
  unfold ProxyPool.proxy_valid_to_use_str.
  erewrite run_bind_return
    by (apply run_getitem_Some; simpl; by rewrite lookup_alter_eq, Ha).
  unfold bind, get, ret. f_equal. f_equal.
  unfold ProxyPool.proxy_valid_to_use, ProxyData.is_valid. simpl.
  rewrite (bool_decide_eq_false_2 (ProxyData.timeout p < now)) by lia.
  by rewrite !andb_false_r.
Qed.

Lemma get_proxy_at_expiry_witness :
  exists s',
    ProxyPool.get_proxy None None true 15 16 pool_a_cooling = (Return "a", s')
    /\ ProxyPool.proxy_valid_to_use_str 15 "a" s' = (Return false, s').
Proof.
  apply (get_proxy_at_expiry None true 15 16 pool_a_cooling "a" ["b"]
           (ProxyData.mk "a" 15 false 0 1 0)); reflexivity.
Defined.

(** ** The lifecycle mutators *)

Lemma run_use_proxy now s proxy p :
  _proxy_dict s !! proxy = Some p ->
  ProxyPool.use_proxy now proxy s
  = (Return tt,
     set_proxy_dict (insert proxy (ProxyData.use now (time_out_on_use s) p)) s).
Proof.
  intros Hp. unfold ProxyPool.use_proxy.
  erewrite run_bind_return by (by apply run_getitem_Some).
  unfold bind, get. by rewrite run_update, (set_proxy_dict_alter _ _ _ _ Hp).
Qed.

(** X17: without a cooldown on use ([time_out_on_use <= 0], so that
    [give_timeout] is not called), [use_proxy] on a registered endpoint
    returns normally, raises [used_counter] by one and changes nothing
    else.  If that use reaches the ceiling [max_uses > 0], the endpoint
    is from then on not valid to use at any clock reading, and a
    [return_proxy] of it returns without putting it into the queue. *)
Theorem use_proxy_reaches_ceiling now s proxy p :
  _proxy_dict s !! proxy = Some p ->
  time_out_on_use s <= 0 ->
  exists s',
    ProxyPool.use_proxy now proxy s = (Return tt, s')
    /\ _proxy_dict s'
       = <[proxy := ProxyData.set_used_counter (ProxyData.used_counter p + 1) p]>
           (_proxy_dict s)
    /\ _proxy_queue s' = _proxy_queue s
    /\ (0 < max_uses s -> max_uses s <= ProxyData.used_counter p + 1 ->
        (forall t, ProxyPool.proxy_valid_to_use_str t proxy s' = (Return false, s'))
        /\ exists s'',
             ProxyPool.return_proxy proxy s' = (Return tt, s'')
             /\ _proxy_queue s'' = _proxy_queue s).
Proof.
  intros Hp Htou.
  set (p' := ProxyData.set_used_counter (ProxyData.used_counter p + 1) p).
  set (s' := set_proxy_dict (insert proxy p') s).
  assert (Huse : ProxyData.use now (time_out_on_use s) p = p').
  { unfold ProxyData.use. by rewrite bool_decide_eq_false_2 by lia. }
  assert (Hp' : _proxy_dict s' !! proxy = Some p') by apply lookup_insert_eq.
  exists s'. split; [by rewrite (run_use_proxy now s proxy p Hp), Huse|].
  split; [done|]. split; [done|]. intros Hmax Hle. split.
  - intros t. unfold ProxyPool.proxy_valid_to_use_str.
    erewrite run_bind_return by (by apply run_getitem_Some).
    unfold bind, get, ret. do 2 f_equal.
    unfold ProxyPool.proxy_valid_to_use. simpl.
    rewrite (bool_decide_eq_false_2 (max_uses s <= 0)) by lia.
    by rewrite (bool_decide_eq_false_2 (ProxyData.used_counter p + 1 < max_uses s))
      by lia.
  - eexists. split.
    + unfold ProxyPool.return_proxy.
      erewrite run_bind_return by (by apply run_getitem_Some).
      erewrite run_bind_return by apply run_update.
      erewrite run_bind_return
        by (apply run_getitem_Some; simpl; by rewrite lookup_alter_eq, lookup_insert_eq).
      unfold bind, get.
      replace (ProxyPool.proxy_valid_to_give _ 0 _ true) with false; [done|].
      unfold ProxyPool.proxy_valid_to_give. simpl.
      rewrite (bool_decide_eq_false_2 (max_uses s <= 0)) by lia.
      rewrite (bool_decide_eq_false_2 (ProxyData.used_counter p + 1 < max_uses s))
        by lia.
      by rewrite andb_false_r.
    + done.
Qed.

Lemma use_proxy_reaches_ceiling_witness :
  exists s',
    ProxyPool.use_proxy 7 "a" pool_one_use = (Return tt, s')
    /\ _proxy_dict s'
       = <["a" := ProxyData.set_used_counter
                    (ProxyData.used_counter (ProxyData.__init__ "a") + 1)
                    (ProxyData.__init__ "a")]>
           (_proxy_dict pool_one_use)
    /\ _proxy_queue s' = _proxy_queue pool_one_use
    /\ (0 < max_uses pool_one_use ->
        max_uses pool_one_use <= ProxyData.used_counter (ProxyData.__init__ "a") + 1 ->
        (forall t, ProxyPool.proxy_valid_to_use_str t "a" s' = (Return false, s'))
        /\ exists s'',
             ProxyPool.return_proxy "a" s' = (Return tt, s'')
             /\ _proxy_queue s'' = _proxy_queue pool_one_use).
Proof.
  apply (use_proxy_reaches_ceiling 7 pool_one_use "a" (ProxyData.__init__ "a")).
  - reflexivity.
  - simpl. lia.
Defined.

(** X18: [ban_proxy] on a registered endpoint returns normally and leaves
    the queue alone; from then on both validity checks answer false for
    the endpoint at every clock reading, whatever the ceilings and with
    the cooldown ignored or not.  If the endpoint was not banned before,
    [unban_proxy] brings back the pool one started from. *)
Theorem ban_then_unban s proxy p :
  _proxy_dict s !! proxy = Some p ->
  exists s1,
    ProxyPool.ban_proxy proxy s = (Return tt, s1)
    /\ _proxy_queue s1 = _proxy_queue s
    /\ (forall now ignore_timeout,
        ProxyPool.proxy_valid_to_give_str now proxy ignore_timeout s1
        = (Return false, s1))
    /\ (forall now, ProxyPool.proxy_valid_to_use_str now proxy s1 = (Return false, s1))
    /\ (ProxyData.banned p = false ->
        ProxyPool.unban_proxy proxy s1 = (Return tt, s)).
Proof.
  intros Hp. exists (set_proxy_dict (insert proxy (ProxyData.ban p)) s).
  assert (Hp1 : _proxy_dict (set_proxy_dict (insert proxy (ProxyData.ban p)) s) !! proxy
                = Some (ProxyData.ban p)) by apply lookup_insert_eq.
  split.
  { unfold ProxyPool.ban_proxy.
    erewrite run_bind_return by (by apply run_getitem_Some).
    by rewrite run_update, (set_proxy_dict_alter _ _ _ _ Hp). }
  split; [done|]. split; [|split].
  - intros now ig. unfold ProxyPool.proxy_valid_to_give_str.
    erewrite run_bind_return by (by apply run_getitem_Some).
    unfold bind, get, ret. do 2 f_equal.
    unfold ProxyPool.proxy_valid_to_give, ProxyData.is_valid. simpl.
    by rewrite andb_false_r.
  - intros now. unfold ProxyPool.proxy_valid_to_use_str.
    erewrite run_bind_return by (by apply run_getitem_Some).
    unfold bind, get, ret. do 2 f_equal.
    unfold ProxyPool.proxy_valid_to_use, ProxyData.is_valid. simpl.
    by rewrite andb_false_r.
  - intros Hb. unfold ProxyPool.unban_proxy.
    erewrite run_bind_return by (by apply run_getitem_Some).
    rewrite run_update, (set_proxy_dict_alter _ _ _ _ Hp1). f_equal.
    unfold set_proxy_dict. simpl. rewrite insert_insert_eq.
    assert (ProxyData.unban (ProxyData.ban p) = p) as ->.
    { destruct p. simpl in Hb. subst. done. }
    rewrite insert_id by done. apply pool_eta.
Qed.

Lemma ban_then_unban_witness :
  exists s1,
    ProxyPool.ban_proxy "a" pool_a_cooling = (Return tt, s1)
    /\ _proxy_queue s1 = _proxy_queue pool_a_cooling
    /\ (forall now ignore_timeout,
        ProxyPool.proxy_valid_to_give_str now "a" ignore_timeout s1
        = (Return false, s1))
    /\ (forall now, ProxyPool.proxy_valid_to_use_str now "a" s1 = (Return false, s1))
    /\ (ProxyData.banned (ProxyData.mk "a" 15 false 0 1 0) = false ->
        ProxyPool.unban_proxy "a" s1 = (Return tt, pool_a_cooling)).
Proof.
  apply (ban_then_unban pool_a_cooling "a" (ProxyData.mk "a" 15 false 0 1 0)).
  reflexivity.
Defined.


(** ** [available_proxy_count] *)

Lemma init_lookup l mt mu tou a :
  _proxy_dict (ProxyPool.__init__ l mt mu tou) !! a
  = if decide (a ∈ l) then Some (ProxyData.__init__ a) else None.
Proof.
  simpl.
  assert (Hfold : forall l (d : gmap string ProxyData.t),
    foldl (fun d a => <[a := ProxyData.__init__ a]> d) d l !! a
    = if decide (a ∈ l) then Some (ProxyData.__init__ a) else d !! a).
  { clear l. induction l as [|x l IH]; intros d; simpl.
    - destruct (decide (a ∈ [])) as [Hin|_]; [by apply elem_of_nil in Hin|done].
    - rewrite IH.
      destruct (decide (a ∈ l)) as [Hl|Hl], (decide (a ∈ x :: l)) as [Hxl|Hxl];
        try done.
      + exfalso. apply Hxl, elem_of_cons. by right.
      + apply elem_of_cons in Hxl as [->|?]; [|done]. apply lookup_insert_eq.
      + apply lookup_insert_ne. intros ->. apply Hxl, elem_of_cons. by left. }
  rewrite Hfold. by destruct (decide (a ∈ l)).
Qed.

Lemma init_dom l mt mu tou :
  dom (_proxy_dict (ProxyPool.__init__ l mt mu tou)) =@{gset string} list_to_set l.
Proof.
  apply set_eq. intros a. rewrite elem_of_dom, init_lookup, elem_of_list_to_set.
  destruct (decide (a ∈ l)); split; intros H; try done;
    try (by eexists); by destruct H.
Qed.

(** X19: the constructor registers the distinct identifiers of the list,
    each with a fresh state, and nothing else, while the queue is the
    list as given.  At any positive clock reading every registered
    endpoint counts as available, so on a list without repetition
    [available_proxy_count] is the length of the list. *)
Theorem init_registers_distinct l mt mu tou :
  (forall a, _proxy_dict (ProxyPool.__init__ l mt mu tou) !! a
             = if decide (a ∈ l) then Some (ProxyData.__init__ a) else None)
  /\ _proxy_queue (ProxyPool.__init__ l mt mu tou) = l
  /\ (forall now, 0 < now ->
      ProxyPool.available_proxy_count now (ProxyPool.__init__ l mt mu tou)
      = (Return (Z.of_nat (size (_proxy_dict (ProxyPool.__init__ l mt mu tou)))),
         ProxyPool.__init__ l mt mu tou))
  /\ (NoDup l -> size (_proxy_dict (ProxyPool.__init__ l mt mu tou)) = length l).
Proof.
  split; [intros a; apply init_lookup|]. split; [done|]. split.
  - intros now Hnow. unfold ProxyPool.available_proxy_count, bind, get, ret.
    do 3 f_equal. rewrite map_filter_id; [done|]. intros a p Hp.
    rewrite init_lookup in Hp. destruct (decide (a ∈ l)); [|done].
    injection Hp as <-. simpl.
    unfold ProxyPool.proxy_valid_to_give, ProxyData.is_valid. simpl.
    rewrite !andb_true_iff, !orb_true_iff, !bool_decide_eq_true.
    repeat split.
    + destruct (decide (mt <= 0)); [by left|right; lia].
    + destruct (decide (mu <= 0)); [by left|right; lia].
    + lia.
  - intros Hnd. rewrite <- (size_dom (D := gset string)), init_dom.
    by apply size_list_to_set.
Qed.

Lemma valid_count_alter s now (f : ProxyData.t -> ProxyData.t) (i : string)
      (d : gmap string ProxyData.t) :
  (forall p, ProxyPool.proxy_valid_to_give s now (f p) false
             = ProxyPool.proxy_valid_to_give s now p false) ->
  size (filter (fun kv : string * ProxyData.t =>
                  ProxyPool.proxy_valid_to_give s now (snd kv) false = true)
               (alter f i d))
  = size (filter (fun kv : string * ProxyData.t =>
                    ProxyPool.proxy_valid_to_give s now (snd kv) false = true) d).
Proof.
  intros Hf. rewrite <- !(size_dom (D := gset string)). f_equal.
  apply set_eq. intros k. rewrite !elem_of_dom. unfold is_Some.
  setoid_rewrite map_lookup_filter_Some. simpl.
  destruct (decide (i = k)) as [->|Hne].
  - rewrite lookup_alter_eq. destruct (d !! k) as [x|]; simpl.
    + split.
      * intros (y & [= <-] & Hy). exists x. by rewrite <- Hf.
      * intros (y & [= <-] & Hy). exists (f x). by rewrite Hf.
    + split; by intros (y & ? & _).
  - by rewrite lookup_alter_ne.
Qed.

(** X20: [available_proxy_count] never raises and never changes the pool;
    it counts registered endpoints, so its result lies between 0 and
    the size of the registry, whatever the queue holds. *)
Theorem available_proxy_count_bounds now s :
  exists n,
    ProxyPool.available_proxy_count now s = (Return n, s)
    /\ ProxyPool.__len__ now s = (Return n, s)
    /\ 0 <= n <= Z.of_nat (size (_proxy_dict s)).
Proof.
  eexists. split; [reflexivity|]. split; [reflexivity|].
  split; [lia|]. apply inj_le, map_size_filter.
Qed.

(** X21: handing an endpoint out does not lower the count.  The count is
    taken over the registry and does not look at [given_out_counter]
    or at the queue: after a [get_proxy] that returned the front
    endpoint, [available_proxy_count] gives, at any clock reading, the
    number it gave before. *)
Theorem available_count_ignores_checkout f _replenish now now' t s a q p :
  _proxy_queue s = a :: q ->
  _proxy_dict s !! a = Some p ->
  ProxyData.timeout p <= now ->
  exists s',
    ProxyPool.get_proxy f None _replenish now now' s = (Return a, s')
    /\ fst (ProxyPool.available_proxy_count t s')
       = fst (ProxyPool.available_proxy_count t s).
Proof.
  intros Hq Ha Hnow. eexists. split; [by eapply get_proxy_gives_front|].
  unfold ProxyPool.available_proxy_count, bind, get, ret. simpl. do 2 f_equal.
  by apply (valid_count_alter s).
Qed.

Lemma available_count_ignores_checkout_witness :
  exists s',
    ProxyPool.get_proxy None None true 1 2 pool_ab = (Return "a", s')
    /\ fst (ProxyPool.available_proxy_count 9 s')
       = fst (ProxyPool.available_proxy_count 9 pool_ab).
Proof.
  apply (available_count_ignores_checkout None true 1 2 9 pool_ab "a" ["b"]
           (ProxyData.__init__ "a")).
  - reflexivity.
  - reflexivity.
  - simpl. lia.
Defined.

(** ** Reachable pools *)

Lemma reachable_wf_witness :
  wf (step (Some replenish_c) (Get_proxy None 1 2) pool_empty).
Proof.
  apply (reachable_wf (Some replenish_c)).
  - intros g n s [= <-] Hwf. unfold replenish_c. simpl. unfold bind.
    pose proof (wf_add_proxy s "c" Hwf) as Hadd.
    by destruct (ProxyPool.add_proxy "c" s) as [[[]|e] s1].
  - apply reachable_step. unfold pool_empty. apply reachable_init. constructor.
Defined.


(** ** The handle *)

Lemma run_contains s item :
  ProxyPool.__contains__ item s
  = (Return (bool_decide (is_Some (_proxy_dict s !! item))), s).
Proof. done. Qed.


(** X22: a handle asked for by identifier is not a checkout.  In a pool
    whose queued identifiers are all registered,
    [pool.Proxy(proxy)] never calls [get_proxy]: for a registered
    identifier the pool is left exactly as it was (the endpoint stays
    queued if it was, and its [given_out_counter] does not move); for an
    unregistered one the identifier is first added, so that it is
    registered with a fresh state and queued while the handle holds
    it. *)
Theorem explicit_handle_is_not_a_checkout f now now' s proxy :
  queue_registered (_proxy_dict s) (_proxy_queue s) ->
  exists s',
    ProxyPool_Proxy f (Some proxy) now now' s = (Return (Proxy.mk proxy), s')
    /\ (is_Some (_proxy_dict s !! proxy) -> s' = s)
    /\ (_proxy_dict s !! proxy = None ->
        _proxy_dict s' !! proxy = Some (ProxyData.__init__ proxy)
        /\ proxy ∈ _proxy_queue s')
    /\ replenish_calls s' = replenish_calls s.
Proof.
  intros Hreg. unfold ProxyPool_Proxy, Proxy.__init__.
  destruct (_proxy_dict s !! proxy) as [p|] eqn:Hp.
  - exists s. split.
    + erewrite run_bind_return.
      2:{ erewrite run_bind_return by apply run_contains.
          rewrite Hp, bool_decide_eq_true_2 by (by eexists). reflexivity. }
      done.
    + split; [done|]. split; [done|done].
  - eexists. split.
    + erewrite run_bind_return.
      2:{ erewrite run_bind_return by apply run_contains.
          rewrite Hp, bool_decide_eq_false_2 by (by intros [? ?]).
          by apply add_proxy_run. }
      done.
    + simpl. split; [by intros [? ?]|]. split; [|done]. intros _.
      split; [apply lookup_insert_eq|apply spec_put_elem_of; by left].
Qed.

Lemma explicit_handle_is_not_a_checkout_witness :
  exists s',
    ProxyPool_Proxy None (Some "x") 1 2 pool_ab = (Return (Proxy.mk "x"), s')
    /\ (is_Some (_proxy_dict pool_ab !! "x") -> s' = pool_ab)
    /\ (_proxy_dict pool_ab !! "x" = None ->
        _proxy_dict s' !! "x" = Some (ProxyData.__init__ "x")
        /\ "x" ∈ _proxy_queue s')
    /\ replenish_calls s' = replenish_calls pool_ab.
Proof.
  apply (explicit_handle_is_not_a_checkout None 1 2 pool_ab "x").
  vm_compute. repeat constructor; by eexists.
Defined.




